(** * HTMLDownloader: the crawl-and-extract engine of [WebsiteScraper/app.py]

    A shallow embedding of the class [WebScraper] (image location, image
    listing, navigation-link extraction, the crawl loop and the image
    download), of the page built around it ([main], with its image loops,
    its grid and its archives, and [create_download_zip]), together with
    the small part of Python's [str], [urllib.parse], [posixpath],
    BeautifulSoup and Pillow that their control flow depends on.

    Python strings are modelled as [string] (one [ascii] per character, so
    the model speaks about ASCII text), Python exceptions as [None] in
    [option], the instance attributes of [WebScraper] as a record that is
    threaded through the methods. *)

From Stdlib Require Import Ascii String ZArith Lia Bool Sorted.
From Stdlib Require DecimalString DecimalNat DecimalFacts.
From stdpp Require Import base option list gmap strings.

Local Open Scope Z_scope.
Local Open Scope nat_scope.

(** ** Python [str] *)

Module Str.

Definition eqb_ascii (a b : ascii) : bool := Ascii.eqb a b.

(** [c in s] for a one-character [c]. *)
Fixpoint has (c : ascii) (s : string) : bool :=
  match s with
  | EmptyString => false
  | String a s' => eqb_ascii a c || has c s'
  end.

(** [s.startswith(p)]. *)
Fixpoint startswith (s p : string) {struct p} : bool :=
  match p, s with
  | EmptyString, _ => true
  | String b p', String a s' => eqb_ascii a b && startswith s' p'
  | String _ _, EmptyString => false
  end.

(** [s.endswith(p)]. *)
Definition endswith (s p : string) : bool :=
  startswith (String.rev s) (String.rev p).

(** [sub in s]. *)
Fixpoint contains (sub s : string) : bool :=
  startswith s sub ||
  match s with
  | EmptyString => false
  | String _ s' => contains sub s'
  end.

Definition lower_ascii (a : ascii) : ascii :=
  let n := nat_of_ascii a in
  if (65 <=? n) && (n <=? 90) then ascii_of_nat (n + 32) else a.

(** [s.lower()]. *)
Fixpoint lower (s : string) : string :=
  match s with
  | EmptyString => EmptyString
  | String a s' => String (lower_ascii a) (lower s')
  end.

(** [s[:n]]. *)
Fixpoint take (n : nat) (s : string) : string :=
  match n, s with
  | S n', String a s' => String a (take n' s')
  | _, _ => EmptyString
  end.

(** [s[n:]]. *)
Fixpoint drop (n : nat) (s : string) : string :=
  match n, s with
  | S n', String _ s' => drop n' s'
  | _, _ => s
  end.

(** The text before the first [c] and, when [c] occurs, the text after
    it: [s.split(c, 1)], and [s[:i]], [s[i+1:]] for [i = s.find(c)]. *)
Fixpoint cut (c : ascii) (s : string) : string * option string :=
  match s with
  | EmptyString => (EmptyString, None)
  | String a s' =>
      if eqb_ascii a c then (EmptyString, Some s')
      else let '(l, r) := cut c s' in (String a l, r)
  end.

(** The longest prefix whose characters all satisfy [p], and the rest. *)
Fixpoint span (p : ascii -> bool) (s : string) : string * string :=
  match s with
  | EmptyString => (EmptyString, EmptyString)
  | String a s' =>
      if p a then let '(l, r) := span p s' in (String a l, r)
      else (EmptyString, s)
  end.

Fixpoint all (p : ascii -> bool) (s : string) : bool :=
  match s with
  | EmptyString => true
  | String a s' => p a && all p s'
  end.

Fixpoint filter (p : ascii -> bool) (s : string) : string :=
  match s with
  | EmptyString => EmptyString
  | String a s' => if p a then String a (filter p s') else filter p s'
  end.

(** Whitespace of [str.strip()] within ASCII: TAB, LF, VT, FF, CR,
    FS, GS, RS, US and the space. *)
Definition is_space (a : ascii) : bool :=
  let n := nat_of_ascii a in
  ((9 <=? n) && (n <=? 13)) || ((28 <=? n) && (n <=? 32)).

Definition lstrip_by (p : ascii -> bool) (s : string) : string :=
  snd (span p s).

Definition rstrip_by (p : ascii -> bool) (s : string) : string :=
  String.rev (lstrip_by p (String.rev s)).

(** [s.strip()]. *)
Definition strip (s : string) : string :=
  rstrip_by is_space (lstrip_by is_space s).

(** [s.split(c)]: never empty, one more part than [c] occurs. *)
Fixpoint split (c : ascii) (s : string) : list string :=
  match s with
  | EmptyString => [EmptyString]
  | String a s' =>
      if eqb_ascii a c then EmptyString :: split c s'
      else match split c s' with
           | [] => [String a EmptyString]
           | w :: ws => String a w :: ws
           end
  end.

(** [sep.join(l)]. *)
Definition join (sep : string) (l : list string) : string :=
  String.concat sep l.

Definition is_empty (s : string) : bool :=
  match s with EmptyString => true | _ => false end.

End Str.

(** ** [urllib.parse] (CPython 3.11 and 3.12)

    [urlsplit], [urlparse], [urlunsplit], [urlunparse] and [urljoin] as the
    scraper calls them ([allow_fragments] left at its default).  A
    [ValueError] is [None].  Of the checks that raise, the bracket check of
    the network location ("Invalid IPv6 URL") is modelled; the validation of
    the text between the brackets and the NFKC check of non-ASCII hosts are
    not (they concern hosts with brackets or non-ASCII characters only). *)

Module urllib.

Record ParseResult := mkParseResult {
  scheme : string;
  netloc : string;
  path : string;
  params : string;
  query : string;
  fragment : string
}.

Definition uses_relative : list string :=
  [EmptyString; "ftp"; "http"; "gopher"; "nntp"; "imap"; "wais"; "file";
   "https"; "shttp"; "mms"; "prospero"; "rtsp"; "rtsps"; "rtspu"; "sftp";
   "svn"; "svn+ssh"; "ws"; "wss"].

Definition uses_netloc : list string :=
  [EmptyString; "ftp"; "http"; "gopher"; "nntp"; "telnet"; "imap"; "wais";
   "file"; "mms"; "https"; "shttp"; "snews"; "prospero"; "rtsp"; "rtsps";
   "rtspu"; "rsync"; "svn"; "svn+ssh"; "sftp"; "nfs"; "git"; "git+ssh"; "ws";
   "wss"; "itms-services"].

Definition uses_params : list string :=
  [EmptyString; "ftp"; "hdl"; "prospero"; "http"; "imap"; "https"; "shttp";
   "rtsp"; "rtsps"; "rtspu"; "sip"; "sips"; "mms"; "sftp"; "tel"].

Definition mem (s : string) (l : list string) : bool :=
  existsb (String.eqb s) l.

(** [scheme_chars]: letters, digits, [+], [-], [.]. *)
Definition scheme_char (a : ascii) : bool :=
  let n := nat_of_ascii a in
  ((97 <=? n) && (n <=? 122)) || ((65 <=? n) && (n <=? 90)) ||
  ((48 <=? n) && (n <=? 57)) || (n =? 43) || (n =? 45) || (n =? 46).

Definition is_alpha (a : ascii) : bool :=
  let n := nat_of_ascii a in
  ((97 <=? n) && (n <=? 122)) || ((65 <=? n) && (n <=? 90)).

(** [_WHATWG_C0_CONTROL_OR_SPACE]: the characters 0x00 to 0x20. *)
Definition c0_or_space (a : ascii) : bool := nat_of_ascii a <=? 32.

(** Not in [_UNSAFE_URL_BYTES_TO_REMOVE] (TAB, CR, LF). *)
Definition safe_byte (a : ascii) : bool :=
  let n := nat_of_ascii a in
  negb ((n =? 9) || (n =? 13) || (n =? 10)).

(** The delimiters [/], [?], [#] that end the network location. *)
Definition netloc_char (a : ascii) : bool :=
  negb (Str.eqb_ascii a "/" || Str.eqb_ascii a "?" || Str.eqb_ascii a "#").

(** [_splitnetloc(url, 2)] on a [url] that starts with [//]. *)
Definition _splitnetloc (url : string) : string * string :=
  Str.span netloc_char (Str.drop 2 url).

(** The scheme and the rest, or the default scheme and the whole. *)
Definition split_scheme (url dflt : string) : string * string :=
  match Str.cut ":" url with
  | (String a0 before, Some rest) =>
      if is_alpha a0 && Str.all scheme_char (String a0 before)
      then (Str.lower (String a0 before), rest)
      else (dflt, url)
  | _ => (dflt, url)
  end.

Definition bad_brackets (nl : string) : bool :=
  (Str.has "[" nl && negb (Str.has "]" nl)) ||
  (Str.has "]" nl && negb (Str.has "[" nl)).

(** [urlsplit(url, scheme)] as (scheme, netloc, path, query, fragment). *)
Definition urlsplit (url dflt : string)
  : option (string * string * string * string * string) :=
  let url := Str.lstrip_by c0_or_space url in
  let dflt := Str.rstrip_by c0_or_space (Str.lstrip_by c0_or_space dflt) in
  let url := Str.filter safe_byte url in
  let dflt := Str.filter safe_byte dflt in
  let '(sch, url) := split_scheme url dflt in
  let '(nl, url) :=
    if Str.startswith url "//" then _splitnetloc url
    else (EmptyString, url) in
  if bad_brackets nl then None
  else
    let '(url, frag) := Str.cut "#" url in
    let '(url, qry) := Str.cut "?" url in
    Some (sch, nl, url, default EmptyString qry, default EmptyString frag).

(** [_splitparams(url)]: the first [;] at or after the last [/] splits
    the path from its parameters. *)
Definition _splitparams (url : string) : string * string :=
  let '(rlast, rhead) := Str.cut "/" (String.rev url) in
  let head :=
    match rhead with
    | Some h => String.rev h +:+ "/"
    | None => EmptyString
    end in
  match Str.cut ";" (String.rev rlast) with
  | (l, Some r) => (head +:+ l, r)
  | (_, None) => (url, EmptyString)
  end.

(** [urlparse(url, scheme)]. *)
Definition urlparse_with (url dflt : string) : option ParseResult :=
  match urlsplit url dflt with
  | None => None
  | Some (sch, nl, p, q, f) =>
      let '(p, prm) :=
        if mem sch uses_params && Str.has ";" p then _splitparams p
        else (p, EmptyString) in
      Some (mkParseResult sch nl p prm q f)
  end.

Definition urlparse (url : string) : option ParseResult :=
  urlparse_with url EmptyString.

(** [urlunsplit((scheme, netloc, url, query, fragment))]. *)
Definition urlunsplit (sch nl url qry frag : string) : string :=
  let url :=
    if negb (Str.is_empty nl) ||
       (negb (Str.is_empty sch) && mem sch uses_netloc &&
        negb (String.eqb (Str.take 2 url) "//"))
    then
      let url :=
        if negb (Str.is_empty url) && negb (String.eqb (Str.take 1 url) "/")
        then "/" +:+ url else url in
      "//" +:+ nl +:+ url
    else url in
  let url := if Str.is_empty sch then url else sch +:+ ":" +:+ url in
  let url := if Str.is_empty qry then url else url +:+ "?" +:+ qry in
  if Str.is_empty frag then url else url +:+ "#" +:+ frag.

(** [urlunparse(components)]. *)
Definition urlunparse (r : ParseResult) : string :=
  let url :=
    if Str.is_empty (params r) then path r
    else path r +:+ ";" +:+ params r in
  urlunsplit (scheme r) (netloc r) url (query r) (fragment r).

(** [parsed._replace(fragment='')]. *)
Definition replace_fragment (r : ParseResult) (f : string) : ParseResult :=
  mkParseResult (scheme r) (netloc r) (path r) (params r) (query r) f.

(** [segments[1:-1] = filter(None, segments[1:-1])]. *)
Definition filter_middle (segs : list string) : list string :=
  match segs with
  | first :: (_ :: _) as rest =>
      match reverse rest with
      | lst :: rmid =>
          first :: List.filter (fun s => negb (Str.is_empty s)) (reverse rmid)
                ++ [lst]
      | [] => segs
      end
  | _ => segs
  end.

(** The loop of [urljoin] that resolves [.] and [..]. *)
Fixpoint resolve (segments resolved_path : list string) : list string :=
  match segments with
  | [] => resolved_path
  | seg :: rest =>
      if String.eqb seg ".." then resolve rest (removelast resolved_path)
      else if String.eqb seg "." then resolve rest resolved_path
      else resolve rest (resolved_path ++ [seg])
  end.

(** [urljoin(base, url)]. *)
Definition urljoin (base url : string) : option string :=
  if Str.is_empty base then Some url
  else if Str.is_empty url then Some base
  else
    b ← urlparse_with base EmptyString;
    u ← urlparse_with url (scheme b);
    if negb (String.eqb (scheme u) (scheme b)) ||
       negb (mem (scheme u) uses_relative)
    then Some url
    else if mem (scheme u) uses_netloc && negb (Str.is_empty (netloc u))
    then Some (urlunparse u)
    else
      let nl := if mem (scheme u) uses_netloc then netloc b else netloc u in
      if Str.is_empty (path u) && Str.is_empty (params u)
      then
        let q := if Str.is_empty (query u) then query b else query u in
        Some (urlunparse
                (mkParseResult (scheme u) nl (path b) (params b) q
                   (fragment u)))
      else
        let base_parts := Str.split "/" (path b) in
        let base_parts :=
          if negb (Str.is_empty (List.last base_parts EmptyString))
          then removelast base_parts else base_parts in
        let segments :=
          if String.eqb (Str.take 1 (path u)) "/"
          then Str.split "/" (path u)
          else filter_middle (base_parts ++ Str.split "/" (path u)) in
        let resolved_path := resolve segments [] in
        let resolved_path :=
          if mem (List.last segments EmptyString) ["."; ".."]
          then resolved_path ++ [EmptyString] else resolved_path in
        let p := Str.join "/" resolved_path in
        Some (urlunparse
                (mkParseResult (scheme u) nl
                   (if Str.is_empty p then "/" else p)
                   (params u) (query u) (fragment u))).

End urllib.

#[local] Set Warnings "-register-all".

(** ** BeautifulSoup

    The parsed document as the scraper sees it: a tree of tags and strings,
    tag attributes as a dictionary whose [class] value is a list of tokens
    (the parser splits multi-valued attributes), and for every element its
    chain of parents and the elements parsed before it. *)

Module bs4.

Inductive attr :=
| Str (s : string)
| Toks (l : list string).

Inductive node :=
| Tag (name : string) (attrs : list (string * attr)) (contents : list node)
| NavigableString (s : string).

(** The [BeautifulSoup] object: the root of the tree. *)
Definition BeautifulSoup (contents : list node) : node :=
  Tag "[document]" [] contents.

(** A tag or string with its place in the tree: [.parent] and its
    parents upwards (nearest first, the root last), and
    [.previous_elements] (nearest first). *)
Record PageElement := mkPageElement {
  self : node;
  parents : list node;
  previous_elements : list node
}.

Definition name (n : node) : string :=
  match n with
  | Tag nm _ _ => nm
  | NavigableString _ => EmptyString
  end.

Definition is_tag (nm : string) (n : node) : bool :=
  match n with
  | Tag nm' _ _ => String.eqb nm' nm
  | NavigableString _ => false
  end.

Fixpoint lookup_attr (key : string) (l : list (string * attr)) : option attr :=
  match l with
  | [] => None
  | (k, v) :: l' => if String.eqb k key then Some v else lookup_attr key l'
  end.

(** [tag.get(key)]. *)
Definition get (n : node) (key : string) : option attr :=
  match n with
  | Tag _ attrs _ => lookup_attr key attrs
  | NavigableString _ => None
  end.

(** The attribute value used as a string. *)
Definition as_str (a : attr) : string :=
  match a with
  | Str s => s
  | Toks l => Str.join " " l
  end.

(** Python truth of an attribute value. *)
Definition truthy (a : attr) : bool :=
  match a with
  | Str s => negb (Str.is_empty s)
  | Toks l => match l with [] => false | _ => true end
  end.

(** [for x in value]: the tokens of a list, the characters of a string. *)
Fixpoint chars (s : string) : list string :=
  match s with
  | EmptyString => []
  | String a s' => String a EmptyString :: chars s'
  end.

Definition iter (a : attr) : list string :=
  match a with
  | Str s => chars s
  | Toks l => l
  end.

(** The class tokens a CSS class selector is matched against. *)
Definition classes (n : node) : list string :=
  match get n "class" with
  | Some (Toks l) => l
  | Some (Str s) => String.words s
  | None => []
  end.

(** [tag.get_text()]: the strings below the tag, concatenated. *)
Fixpoint get_text (n : node) : string :=
  match n with
  | NavigableString s => s
  | Tag _ _ cs =>
      (fix go (l : list node) : string :=
         match l with
         | [] => EmptyString
         | c :: l' => get_text c +:+ go l'
         end) cs
  end.

(** The node and everything below it in document order, each with its
    parents. *)
Fixpoint preorder (ps : list node) (n : node) : list (node * list node) :=
  (n, ps) ::
  match n with
  | NavigableString _ => []
  | Tag _ _ cs =>
      (fix go (l : list node) : list (node * list node) :=
         match l with
         | [] => []
         | c :: l' => preorder (n :: ps) c ++ go l'
         end) cs
  end.

(** Adds to every element of a document-order listing the elements
    before it. *)
Fixpoint locate (prev : list node) (l : list (node * list node))
  : list PageElement :=
  match l with
  | [] => []
  | (n, ps) :: l' => mkPageElement n ps prev :: locate (n :: prev) l'
  end.

(** [soup.descendants]: everything below the root, in document order. *)
Definition descendants (soup : node) : list PageElement :=
  tail (locate [] (preorder [] soup)).

(** [soup.find_all(name)]. *)
Definition find_all (soup : node) (nm : string) : list PageElement :=
  List.filter (fun e => is_tag nm (self e)) (descendants soup).

(** [soup.find(name)]. *)
Definition find (soup : node) (nm : string) : option PageElement :=
  head (find_all soup nm).

(** [element.find_previous(name)]. *)
Definition find_previous (e : PageElement) (nm : string) : option node :=
  List.find (is_tag nm) (previous_elements e).

(** [tag.find_all('a', href=True)]: the [a] tags below [n] that have an
    [href] attribute. *)
Definition find_all_a_href (n : node) : list node :=
  List.filter (fun d => is_tag "a" d && bool_decide (is_Some (get d "href")))
    (tail (fst <$> preorder [] n)).

(** *** CSS selectors

    The selectors of the scraper are chains of simple selectors joined
    by the descendant combinator. *)

Inductive simple :=
| ByTag (nm : string)
| ByClass (c : string)
| ById (i : string)
| ByAttr (k v : string).

(** Outermost first: [header nav] is [[ByTag "header"; ByTag "nav"]]. *)
Definition selector := list simple.

Definition match_simple (s : simple) (n : node) : bool :=
  match n with
  | NavigableString _ => false
  | Tag nm _ _ =>
      match s with
      | ByTag t => String.eqb nm t
      | ByClass c => existsb (String.eqb c) (classes n)
      | ById i =>
          match get n "id" with
          | Some a => String.eqb (as_str a) i
          | None => false
          end
      | ByAttr k v =>
          match get n k with
          | Some a => String.eqb (as_str a) v
          | None => false
          end
      end
  end.

(** The remaining simple selectors, innermost first, each matched by a
    parent further up than the one before. *)
Fixpoint match_chain (rsel : list simple) (ps : list node) : bool :=
  match rsel with
  | [] => true
  | s :: rsel' =>
      match ps with
      | [] => false
      | p :: ps' =>
          if match_simple s p then match_chain rsel' ps'
          else match_chain rsel ps'
      end
  end.

Definition matches (sel : selector) (e : PageElement) : bool :=
  match reverse sel with
  | [] => false
  | s :: rsel => match_simple s (self e) && match_chain rsel (parents e)
  end.

(** [soup.select(selector)]. *)
Definition select (soup : node) (sel : selector) : list node :=
  self <$> List.filter (matches sel) (descendants soup).

End bs4.

Import bs4.

(** ** [WebScraper] *)

(** One entry of the list [find_images] returns. *)
Record ImageRec := mkImageRec {
  url : string;
  alt : string;
  location : string;
  index : nat;
  element : PageElement
}.

(** One value of the dictionary [crawl_website] returns. *)
Record PageData := mkPageData {
  title : string;
  html_content : string;
  images : list ImageRec;
  links_found : nat;
  images_count : nat
}.

(** The instance attributes the methods read and write.  [session_log]
    records, oldest first, the URLs requested through [self.session.get];
    [found_urls] is never used by the class and is left out. *)
Record WebScraper := mkWebScraper {
  visited_urls : gset string;
  base_domain : option string;
  session_log : list string
}.

(** [WebScraper()]. *)
Definition __init__ : WebScraper := mkWebScraper ∅ None [].

(** *** [get_image_location] *)

Definition semantic_tags : list string :=
  ["header"; "nav"; "main"; "section"; "article"; "aside"; "footer"].

Definition keywords : list string :=
  ["header"; "nav"; "menu"; "sidebar"; "footer"; "content"; "main"; "banner"].

Definition headings : list string := ["h1"; "h2"; "h3"; "h4"; "h5"; "h6"].

(** [any(keyword in cls.lower() for keyword in [...])]. *)
Definition has_keyword (cls : string) : bool :=
  existsb (fun keyword => Str.contains keyword (Str.lower cls)) keywords.

(** The [for cls in classes] loop, left at the first match. *)
Fixpoint class_indicator (classes : list string) : list string :=
  match classes with
  | [] => []
  | cls :: rest =>
      if has_keyword cls then ["." +:+ cls] else class_indicator rest
  end.

(** What one pass of the [while] body appends for [current]. *)
Definition indicators_of (current : node) : list string :=
  (if urllib.mem (name current) semantic_tags then [name current] else []) ++
  match get current "id" with
  | Some i => if truthy i then ["#" +:+ as_str i] else []
  | None => []
  end ++
  match get current "class" with
  | Some c => if truthy c then class_indicator (iter c) else []
  | None => []
  end.

(** The [while current and depth < 10] loop; [chain] is [current] and its
    parents. *)
Fixpoint walk_up (chain : list node) (depth : nat)
    (location_indicators : list string) : list string :=
  match chain with
  | [] => location_indicators
  | current :: up =>
      if depth <? 10
      then walk_up up (S depth) (location_indicators ++ indicators_of current)
      else location_indicators
  end.

(** The [for heading in ['h1', ..., 'h6']] loop. *)
Fixpoint near_heading (img_element : PageElement) (hs : list string)
  : list string :=
  match hs with
  | [] => []
  | heading :: rest =>
      match find_previous img_element heading with
      | Some prev_heading =>
          let text := Str.strip (get_text prev_heading) in
          if 0 <? String.length text
          then ["Near heading: " +:+ Str.take 50 text]
          else near_heading img_element rest
      | None => near_heading img_element rest
      end
  end.

Definition get_image_location (img_element : PageElement) : string :=
  let location_indicators := walk_up (parents img_element) 0 [] in
  let location_indicators :=
    match location_indicators with
    | [] => near_heading img_element headings
    | _ => location_indicators
    end in
  match location_indicators with
  | [] => "Unknown section"
  | _ => Str.join " > " (reverse location_indicators)
  end.

(** *** [find_images] *)

(** The three-way conversion of a [src] to an absolute URL. *)
Definition absolute_src (base_url src : string) : option string :=
  if Str.startswith src "//" then Some ("https:" +:+ src)
  else if Str.startswith src "/" then urllib.urljoin base_url src
  else if negb (Str.startswith src "http://" || Str.startswith src "https://")
  then urllib.urljoin base_url src
  else Some src.

(** [enumerate(l)], counting from [start]. *)
Fixpoint enumerate {A} (start : nat) (l : list A) : list (nat * A) :=
  match l with
  | [] => []
  | x :: l' => (start, x) :: enumerate (S start) l'
  end.

(** The [for idx, img in enumerate(img_tags)] loop. *)
Fixpoint find_images_loop (base_url : string) (img_tags : list (nat * PageElement))
    (images : list ImageRec) : option (list ImageRec) :=
  match img_tags with
  | [] => Some images
  | (idx, img) :: rest =>
      match get (self img) "src" with
      | None => find_images_loop base_url rest images
      | Some src =>
          if negb (truthy src) then find_images_loop base_url rest images
          else
            src' ← absolute_src base_url (as_str src);
            let location := get_image_location img in
            find_images_loop base_url rest
              (images ++
               [mkImageRec src'
                  (from_option as_str EmptyString (get (self img) "alt"))
                  location (idx + 1) img])
      end
  end.

Definition find_images (soup : node) (base_url : string)
  : option (list ImageRec) :=
  let img_tags := find_all soup "img" in
  find_images_loop base_url (enumerate 0 img_tags) [].

(** *** [find_navigation_links] *)

Definition nav_selectors : list selector :=
  [ [ByTag "nav"];
    [ByTag "header"; ByTag "nav"];
    [ByClass "navbar"]; [ByClass "navigation"]; [ByClass "nav"];
    [ByClass "menu"]; [ByClass "main-nav"]; [ByClass "primary-nav"];
    [ByClass "header-nav"]; [ByClass "site-nav"]; [ByClass "top-nav"];
    [ByClass "nav-menu"]; [ByClass "nav-bar"];
    [ById "navbar"]; [ById "navigation"]; [ById "nav"]; [ById "menu"];
    [ById "main-nav"]; [ById "primary-nav"];
    [ById "header-nav"]; [ById "site-nav"]; [ById "top-nav"];
    [ByTag "header"];
    [ByAttr "role" "navigation"];
    [ByClass "header"]; [ByClass "site-header"]; [ByClass "main-header"] ].

Definition fallback_selectors : list selector :=
  [ [ByTag "ul"; ByTag "li"; ByTag "a"];
    [ByClass "menu-item"; ByTag "a"];
    [ByClass "nav-item"; ByTag "a"] ].

(** [links.add(x)] on a set kept in insertion order.  Python leaves the
    order in which a set is iterated open; the properties of the crawl
    below are proved for any list of links, and the webs of the examples
    give the same requests whatever the order. *)
Definition set_add (x : string) (links : list string) : list string :=
  if bool_decide (x ∈ links) then links else links ++ [x].

(** The test that skips empty hrefs, anchors, [mailto:] and [tel:]. *)
Definition skipped_href (href : string) : bool :=
  Str.is_empty href || Str.startswith href "#" ||
  Str.startswith href "mailto:" || Str.startswith href "tel:".

(** The conversion of an [href] to [absolute_url]. *)
Definition absolute_href (base_domain base_url href : string) : option string :=
  if Str.startswith href "//" then Some ("https:" +:+ href)
  else if Str.startswith href "/" then Some (base_domain +:+ href)
  else if negb (Str.startswith href "http://" || Str.startswith href "https://")
  then urllib.urljoin base_url href
  else Some href.

(** [urlunparse(urlparse(absolute_url)._replace(fragment=''))]. *)
Definition clean_url (absolute_url : string) : option string :=
  parsed ← urllib.urlparse absolute_url;
  Some (urllib.urlunparse (urllib.replace_fragment parsed EmptyString)).

(** How a loop body ended: normally, or by an exception raised after the
    assignments made so far. *)
Inductive outcome (A : Type) :=
| Done (a : A)
| Raised (a : A).
Arguments Done {A} a.
Arguments Raised {A} a.

(** The state a loop body left behind, however it ended. *)
Definition state_of {A} (o : outcome A) : A :=
  match o with
  | Done a => a
  | Raised a => a
  end.

(** The body of [for link in nav_links] for one [href]; the state is
    [(links, nav_links_found)]. *)
Definition visit_href (base_domain base_url : string)
    (st : list string * bool) (href : string) : outcome (list string * bool) :=
  if skipped_href href then Done st
  else
    match absolute_href base_domain base_url href with
    | None => Raised st
    | Some absolute_url =>
        if Str.startswith absolute_url base_domain
        then
          match clean_url absolute_url with
          | None => Raised st
          | Some clean => Done (set_add clean (fst st), true)
          end
        else Done st
    end.

(** The two nested [for] loops under one selector, over the hrefs of all
    its navigation elements in order. *)
Fixpoint visit_hrefs (base_domain base_url : string)
    (st : list string * bool) (hrefs : list string)
  : outcome (list string * bool) :=
  match hrefs with
  | [] => Done st
  | href :: rest =>
      match visit_href base_domain base_url st href with
      | Done st' => visit_hrefs base_domain base_url st' rest
      | Raised st' => Raised st'
      end
  end.

(** The hrefs [link['href']] met under one navigation selector. *)
Definition nav_hrefs (soup : node) (sel : selector) : list string :=
  nav_element ← select soup sel;
  link ← find_all_a_href nav_element;
  [from_option as_str EmptyString (get link "href")].

(** The [for selector in nav_selectors] loop with its [try]. *)
Fixpoint try_nav_selectors (soup : node) (base_domain base_url : string)
    (sels : list selector) (st : list string * bool) : list string * bool :=
  match sels with
  | [] => st
  | sel :: rest =>
      match select soup sel with
      | [] => try_nav_selectors soup base_domain base_url rest st
      | _ =>
          match visit_hrefs base_domain base_url st (nav_hrefs soup sel) with
          | Done st' =>
              if snd st' then st'
              else try_nav_selectors soup base_domain base_url rest st'
          | Raised st' =>
              try_nav_selectors soup base_domain base_url rest st'
          end
      end
  end.

(** The hrefs [link.get('href')] of [fallback_links[:10]]; a link without
    the attribute gives the empty string, which the loop skips like
    [None]. *)
Definition fallback_hrefs (soup : node) (sel : selector) : list string :=
  (fun link => from_option as_str EmptyString (get link "href"))
    <$> take 10 (select soup sel).

(** The [for selector in fallback_selectors] loop with its [try]; it has
    no [nav_links_found], so the flag of the state is not read. *)
Fixpoint try_fallback_selectors (soup : node) (base_domain base_url : string)
    (sels : list selector) (links : list string) : list string :=
  match sels with
  | [] => links
  | sel :: rest =>
      match visit_hrefs base_domain base_url (links, false)
              (fallback_hrefs soup sel) with
      | Done (links', _) =>
          match links' with
          | [] => try_fallback_selectors soup base_domain base_url rest links'
          | _ => links'
          end
      | Raised (links', _) =>
          try_fallback_selectors soup base_domain base_url rest links'
      end
  end.

(** [find_navigation_links]: the links and the scraper with
    [base_domain] set; [None] when [urlparse(base_url)] raises. *)
Definition find_navigation_links (self : WebScraper) (soup : node)
    (base_url : string) : option (list string * WebScraper) :=
  self' ←
    (if from_option Str.is_empty true (base_domain self) then
       parsed_url ← urllib.urlparse base_url;
       Some (mkWebScraper (visited_urls self)
               (Some (urllib.scheme parsed_url +:+ "://" +:+
                      urllib.netloc parsed_url))
               (session_log self))
     else Some self);
  let domain := default EmptyString (base_domain self') in
  let '(links, _) :=
    try_nav_selectors soup domain base_url nav_selectors ([], false) in
  let links :=
    match links with
    | [] => try_fallback_selectors soup domain base_url fallback_selectors links
    | _ => links
    end in
  Some (links, self').

(** *** [crawl_website] *)

(** The web as the session sees it: what the [n]-th request of the
    session, for [url], is answered with.  [Some (text, soup)] is a response
    that [raise_for_status] accepts, with its parsed content; [None] is a
    [RequestException]. *)
Definition Web := nat → string → option (string * node).

(** [get_html_content]: the request is logged whether or not it succeeds. *)
Definition get_html_content (web : Web) (self : WebScraper) (url : string)
  : option (string * node) * WebScraper :=
  (web (length (session_log self)) url,
   mkWebScraper (visited_urls self) (base_domain self)
     (session_log self ++ [url])).

(** [pages_data[key] = value] on a dictionary kept in insertion order. *)
Fixpoint dict_set {V} (key : string) (value : V) (d : list (string * V))
  : list (string * V) :=
  match d with
  | [] => [(key, value)]
  | (k, v) :: d' =>
      if String.eqb k key then (k, value) :: d'
      else (k, v) :: dict_set key value d'
  end.

(** [d.get(key)]. *)
Fixpoint dict_get {V} (key : string) (d : list (string * V)) : option V :=
  match d with
  | [] => None
  | (k, v) :: d' => if String.eqb k key then Some v else dict_get key d'
  end.

(** The [for link in page_links] loop that feeds the queue. *)
Fixpoint enqueue (visited : gset string) (page_links urls_to_visit : list string)
  : list string :=
  match page_links with
  | [] => urls_to_visit
  | link :: rest =>
      if bool_decide (link ∉ visited) && bool_decide (link ∉ urls_to_visit)
      then enqueue visited rest (urls_to_visit ++ [link])
      else enqueue visited rest urls_to_visit
  end.

(** The variables of the [while] loop. *)
Record Crawl := mkCrawl {
  scraper : WebScraper;
  pages_data : list (string * PageData);
  urls_to_visit : list string
}.

(** [urls_to_visit and len(pages_data) < max_pages]. *)
Definition loop_cond (max_pages : Z) (c : Crawl) : bool :=
  match urls_to_visit c with
  | [] => false
  | _ => (Z.of_nat (length (pages_data c)) <? max_pages)%Z
  end.

(** The [try] block for [current_url], after it was popped: the new
    variables when it runs to its end, and the scraper as the exception
    left it otherwise.  The warning shown and the half second slept have
    no part in what is returned and are left out. *)
Definition try_page (web : Web) (c : Crawl) (current_url : string)
    (rest : list string) : outcome Crawl :=
  let '(response, self) := get_html_content web (scraper c) current_url in
  match response with
  | None => Raised (mkCrawl self (pages_data c) rest)
  | Some (html_content, soup) =>
      let self :=
        mkWebScraper ({[current_url]} ∪ visited_urls self)
          (base_domain self) (session_log self) in
      match find_images soup current_url with
      | None => Raised (mkCrawl self (pages_data c) rest)
      | Some images =>
          match find_navigation_links self soup current_url with
          | None => Raised (mkCrawl self (pages_data c) rest)
          | Some (page_links, self) =>
              let urls_to_visit :=
                enqueue (visited_urls self) page_links rest in
              let page_title :=
                match find soup "title" with
                | Some title_tag => Str.strip (get_text (bs4.self title_tag))
                | None => "No title"
                end in
              Done (mkCrawl self
                      (dict_set current_url
                         (mkPageData page_title html_content images
                            (length page_links) (length images))
                         (pages_data c))
                      urls_to_visit)
          end
      end
  end.

(** One pass of the [while] body. *)
Definition crawl_step (web : Web) (c : Crawl) : Crawl :=
  match urls_to_visit c with
  | [] => c
  | current_url :: rest =>
      if bool_decide (current_url ∈ visited_urls (scraper c))
      then mkCrawl (scraper c) (pages_data c) rest
      else
        match try_page web c current_url rest with
        | Done c' => c'
        | Raised c' => c'
        end
  end.

(** The [while] loop, run for at most [fuel] passes. *)
Fixpoint crawl_loop (web : Web) (max_pages : Z) (fuel : nat) (c : Crawl)
  : option Crawl :=
  if loop_cond max_pages c then
    match fuel with
    | 0 => None
    | S fuel' => crawl_loop web max_pages fuel' (crawl_step web c)
    end
  else Some c.

(** [crawl_website(start_url, max_pages)]: the dictionary returned and the
    scraper afterwards. *)
Definition crawl_website (web : Web) (fuel : nat) (self : WebScraper)
    (start_url : string) (max_pages : Z)
  : option (list (string * PageData) * WebScraper) :=
  c ← crawl_loop web max_pages fuel (mkCrawl self [] [start_url]);
  Some (pages_data c, scraper c).

(** The states the loop head of a run can be in. *)
Inductive reachable (web : Web) (max_pages : Z) (self : WebScraper)
    (start_url : string) : Crawl → Prop :=
| reach_start : reachable web max_pages self start_url
                  (mkCrawl self [] [start_url])
| reach_step c :
    reachable web max_pages self start_url c →
    loop_cond max_pages c = true →
    reachable web max_pages self start_url (crawl_step web c).

(** What holds at the head of the [while] loop: the queue has no
    duplicates and none of its URLs is visited; the dictionary has one
    entry per key, and its keys are visited. *)
Record crawl_inv (c : Crawl) : Prop := mk_crawl_inv {
  inv_queue_nodup : NoDup (urls_to_visit c);
  inv_disjoint : ∀ u, u ∈ urls_to_visit c → u ∉ visited_urls (scraper c);
  inv_pages_nodup : NoDup (pages_data c).*1;
  inv_pages_visited :
    ∀ u, u ∈ (pages_data c).*1 → u ∈ visited_urls (scraper c)
}.

(** *** [download_and_convert_image] *)

(** [os.path.join(a, b)] of [posixpath]. *)
Definition os_path_join (a b : string) : string :=
  if Str.startswith b "/" then b
  else if Str.is_empty a || Str.endswith a "/" then a +:+ b
  else a +:+ "/" +:+ b.

(** Pillow, as far as the method depends on it: an image has a mode, and
    a writer accepts the modes of its table and raises [OSError]
    ("cannot write mode ... as JPEG") on the others. *)
Module PIL.

Record Image := mkImage { mode : string }.

(** [img.convert(mode)]. *)
Definition convert (img : Image) (m : string) : Image := mkImage m.

(** [JpegImagePlugin.RAWMODE]. *)
Definition jpeg_modes : list string :=
  ["1"; "L"; "RGB"; "RGBX"; "CMYK"; "YCbCr"].

(** [PngImagePlugin._OUTMODES]. *)
Definition png_modes : list string :=
  ["1"; "L;1"; "L;2"; "L;4"; "L"; "LA"; "I"; "I;16"; "I;16B"; "P;1"; "P;2";
   "P;4"; "P"; "RGB"; "RGBA"].

Definition can_write (format : string) (img : Image) : bool :=
  if String.eqb format "JPEG" then urllib.mem (mode img) jpeg_modes
  else if String.eqb format "PNG" then urllib.mem (mode img) png_modes
  else false.

End PIL.

(** The answer to a request for an image: whether [raise_for_status]
    accepts it, its [content-type] header, and what [Image.open] makes of
    its content ([None]: the content is no image Pillow identifies). *)
Record ImageResponse := mkImageResponse {
  status_ok : bool;
  content_type : option string;
  opened : option PIL.Image
}.

(** The images of the web: [None] is a [RequestException]. *)
Definition ImageWeb := string → option ImageResponse.

(** A file written by [img.save]. *)
Record SavedFile := mkSavedFile {
  file_path : string;
  file_format : string;
  file_quality : option nat;
  file_image : PIL.Image
}.

(** [img.save(output_path, format, quality=...)] on the files written so
    far. *)
Definition save (img : PIL.Image) (output_path format : string)
    (quality : option nat) (files : list SavedFile)
  : option (list SavedFile) :=
  if PIL.can_write format img
  then Some (files ++ [mkSavedFile output_path format quality img])
  else None.

(** [download_and_convert_image]: the path returned ([None] after the
    [except]) and the files written. *)
Definition download_and_convert_image (web : ImageWeb) (files : list SavedFile)
    (img_url output_dir filename : string) : option string * list SavedFile :=
  match web img_url with
  | None => (None, files)
  | Some response =>
      if negb (status_ok response) then (None, files)
      else
        let content_type := default EmptyString (content_type response) in
        match opened response with
        | None => (None, files)
        | Some img =>
            let img :=
              if urllib.mem (PIL.mode img) ["RGBA"; "LA"; "P"] then img
              else if negb (String.eqb (PIL.mode img) "RGB")
              then PIL.convert img "RGB"
              else img in
            let '(output_path, format, quality) :=
              if urllib.mem content_type ["image/jpeg"; "image/jpg"] ||
                 (Str.endswith (Str.lower img_url) ".jpg" ||
                  Str.endswith (Str.lower img_url) ".jpeg")
              then (os_path_join output_dir (filename +:+ ".jpg"),
                    "JPEG", Some 95)
              else if String.eqb content_type "image/png" ||
                      Str.endswith (Str.lower img_url) ".png"
              then (os_path_join output_dir (filename +:+ ".png"),
                    "PNG", None)
              else (os_path_join output_dir (filename +:+ ".png"),
                    "PNG", None) in
            match save img output_path format quality files with
            | Some files' => (Some output_path, files')
            | None => (None, files)
            end
        end
  end.

(** ** The page built around the scraper: [main] and [create_download_zip] *)

(** [str(n)] and [f"{n}"] for an [int] that is not negative. *)
Definition str_of_nat (n : nat) : string :=
  DecimalString.NilEmpty.string_of_uint (Nat.to_uint n).

(** [width] zeros or fewer: the padding of [f"{n:03d}"]. *)
Fixpoint zeros (width : nat) : string :=
  match width with
  | 0 => EmptyString
  | S width' => String "0" (zeros width')
  end.

(** The ten digits. *)
Definition is_digit (a : ascii) : bool :=
  (48 <=? nat_of_ascii a) && (nat_of_ascii a <=? 57).

(** [f"{n:03d}"]: the digits of [n], with zeros in front up to three
    characters. *)
Definition format_03d (n : nat) : string :=
  let digits := str_of_nat n in
  zeros (3 - String.length digits) +:+ digits.

(** [l[:n]] for an [int] [n]; a negative [n] counts from the end. *)
Definition slice_to {A} (n : Z) (l : list A) : list A :=
  if (0 <=? n)%Z then take (Z.to_nat n) l
  else take (length l - Z.to_nat (- n)) l.

(** An entry of [all_images]: the dictionary of [find_images] with the
    keys [main] adds to it.  [local_path] is [None] until the download
    loop sets the key.  The dictionaries are those held by [pages_data],
    which sees the added keys too; nothing reads them there. *)
Record ImageData := mkImageData {
  image : ImageRec;
  source_page : string;
  source_page_title : string;
  global_index : nat;
  local_path : option string
}.

(** The [for img_data in page_images] loop; the state is [all_images] and
    [image_counter]. *)
Fixpoint collect_page (page_url page_title : string)
    (page_images : list ImageRec) (st : list ImageData * nat)
  : list ImageData * nat :=
  match page_images with
  | [] => st
  | img_data :: rest =>
      let '(all_images, image_counter) := st in
      collect_page page_url page_title rest
        (all_images ++
         [mkImageData img_data page_url page_title (image_counter + 1) None],
         image_counter + 1)
  end.

(** The [for page_url, page_data in pages_data.items()] loop. *)
Fixpoint collect_images (pages : list (string * PageData)) (max_images : Z)
    (st : list ImageData * nat) : list ImageData * nat :=
  match pages with
  | [] => st
  | (page_url, page_data) :: rest =>
      let page_images := slice_to max_images (images page_data) in
      collect_images rest max_images
        (collect_page page_url (title page_data) page_images st)
  end.

(** [f"image_{i+1:03d}_from_page_{img_data['global_index']}"]. *)
Definition image_filename (i : nat) (img_data : ImageData) : string :=
  "image_" +:+ format_03d (i + 1) +:+ "_from_page_" +:+
  str_of_nat (global_index img_data).

(** The images of the web during the download loop: what the request made
    for the [i]-th entry of [all_images] is answered with. *)
Definition ImageWebs := nat → ImageWeb.

(** The [for i, img_data in enumerate(all_images)] loop; the state is
    [processed_images] and the files written.  The progress shown has no
    part in either and is left out. *)
Fixpoint process_images (webs : ImageWebs) (images_dir : string)
    (all_images : list (nat * ImageData))
    (st : list ImageData * list SavedFile)
  : list ImageData * list SavedFile :=
  match all_images with
  | [] => st
  | (i, img_data) :: rest =>
      let '(processed_images, files) := st in
      let filename := image_filename i img_data in
      let '(output_path, files) :=
        download_and_convert_image (webs i) files (url (image img_data))
          images_dir filename in
      process_images webs images_dir rest
        match output_path with
        | Some path =>
            if Str.is_empty path then (processed_images, files)
            else
              (processed_images ++
               [mkImageData (image img_data) (source_page img_data)
                  (source_page_title img_data) (global_index img_data)
                  (Some path)],
               files)
        | None => (processed_images, files)
        end
  end.

(** The test of the seed and the scheme put in front of it. *)
Definition with_scheme (url : string) : string :=
  if negb (Str.startswith url "http://" || Str.startswith url "https://")
  then "https://" +:+ url
  else url.

(** [st.session_state.scraped_data]. *)
Module session_state.

Record scraped_data := mk_scraped_data {
  url : string;
  pages_data : list (string * PageData);
  all_images : list ImageData;
  images_dir : string;
  total_pages : nat;
  total_images : nat
}.

End session_state.

(** How a press of the button ends: with [st.error] and no data stored,
    or with the data stored and the image files written. *)
Inductive pressed :=
| error (message : string)
| stored (data : session_state.scraped_data) (files : list SavedFile).

(** The body of [if st.button(...)] in [main].  [temp_dir] is what
    [tempfile.mkdtemp()] returns, [None] when it raises; [fuel] bounds the
    passes of the crawl as in [crawl_website]. *)
Definition main (web : Web) (webs : ImageWebs) (temp_dir : option string)
    (fuel : nat) (url : string) (max_pages max_images : Z)
  : option pressed :=
  if Str.is_empty url then Some (error "Please enter a valid URL")
  else
    let url := with_scheme url in
    '(pages_data, scraper) ← crawl_website web fuel __init__ url max_pages;
    match pages_data with
    | [] => Some (error "No pages found to crawl!")
    | _ =>
        match temp_dir with
        | None => Some (error "Error during website crawling")
        | Some temp_dir =>
            let images_dir := os_path_join temp_dir "images" in
            let '(all_images, _) :=
              collect_images pages_data max_images ([], 0) in
            let '(processed_images, files) :=
              process_images webs images_dir (enumerate 0 all_images)
                ([], []) in
            Some (stored
                    (session_state.mk_scraped_data url pages_data
                       processed_images images_dir (length pages_data)
                       (length processed_images))
                    files)
        end
    end.

(** *** [create_download_zip] *)

(** The nine characters of the class that [re.sub] is given: the angle
    brackets, the colon, the double quote, the slash, the backslash, the
    bar, the question mark and the star. *)
Definition unsafe_chars : list ascii :=
  ["<"; ">"; ":"; "034"; "/"; "092"; "|"; "?"; "*"]%char.

(** [re.sub] of that class by an underscore. *)
Fixpoint re_sub_unsafe (s : string) : string :=
  match s with
  | EmptyString => EmptyString
  | String a s' =>
      String (if existsb (Ascii.eqb a) unsafe_chars then "_"%char else a)
        (re_sub_unsafe s')
  end.

(** The name of the [i]-th page (from 0) in the archive. *)
Definition page_filename (i : nat) (page_data : PageData) : string :=
  re_sub_unsafe
    ("page_" +:+ format_03d (i + 1) +:+ "_" +:+
     Str.take 30 (title page_data) +:+ ".html").

Definition newline : string := String "010" EmptyString.

(** The page with its four comment lines in front. *)
Definition html_with_info (page_url : string) (page_data : PageData) : string :=
  "<!-- Page URL: " +:+ page_url +:+ " -->" +:+ newline +:+
  "<!-- Page Title: " +:+ title page_data +:+ " -->" +:+ newline +:+
  "<!-- Images Found: " +:+ str_of_nat (images_count page_data) +:+ " -->" +:+
  newline +:+
  "<!-- Links Found: " +:+ str_of_nat (links_found page_data) +:+ " -->" +:+
  newline +:+ newline +:+
  html_content page_data.

(** A call on the [ZipFile]: [writestr(arcname, data)] or
    [write(filename, arcname)]. *)
Inductive zip_call :=
| writestr (arcname data : string)
| write (filename arcname : string).

Definition arcname_of (c : zip_call) : string :=
  match c with
  | writestr arcname _ => arcname
  | write _ arcname => arcname
  end.

(** The first loop: one [writestr] per page. *)
Definition zip_pages (pages : list (string * PageData)) : list zip_call :=
  (fun '(i, (page_url, page_data)) =>
     writestr ("pages/" +:+ page_filename i page_data)
       (html_with_info page_url page_data))
    <$> enumerate 0 pages.

(** The loops over [os.walk(images_dir)], given as its list of
    [(root, files)]. *)
Definition zip_images (walk : list (string * list string)) : list zip_call :=
  '(root, files) ← walk;
  file ← files;
  [write (os_path_join root file) (os_path_join "images" file)].

(** The text of [summary.txt]; [date] is what [time.strftime] returns. *)
Definition summary (pages : list (string * PageData)) (base_url date : string)
  : string :=
  "Website Scraping Summary" +:+ newline +:+
  "========================" +:+ newline +:+
  "Base URL: " +:+ base_url +:+ newline +:+
  "Total Pages Scraped: " +:+ str_of_nat (length pages) +:+ newline +:+
  "Scrape Date: " +:+ date +:+ newline +:+
  newline +:+
  "Pages:" +:+ newline +:+
  String.concat EmptyString
    ((fun '(i, (page_url, page_data)) =>
        str_of_nat (i + 1) +:+ ". " +:+ title page_data +:+ " - " +:+
        page_url +:+ newline +:+
        "   Images: " +:+ str_of_nat (images_count page_data) +:+
        ", Links: " +:+ str_of_nat (links_found page_data) +:+
        newline +:+ newline)
       <$> enumerate 0 pages).

(** [create_download_zip]: the calls made on the [ZipFile], in order.
    [walk] is [None] when [os.path.exists(images_dir)] is false. *)
Definition create_download_zip (walk : option (list (string * list string)))
    (date : string) (pages_data : list (string * PageData))
    (base_url : string) : list zip_call :=
  zip_pages pages_data ++
  from_option zip_images [] walk ++
  [writestr "summary.txt" (summary pages_data base_url date)].

(** *** The image grid and the archive of categorized images *)

(** [range(0, stop, step)] for a positive [step]. *)
Definition range_step (stop step : nat) : list nat :=
  (fun k => k * step) <$> seq 0 ((stop + step - 1) / step).

Definition images_per_row : nat := 3.

(** The cells of the grid that show an image: per row and column, the
    pair of [col_idx] and [img_idx] when [img_idx < total_images]. *)
Definition grid_cells (total_images : nat) : list (nat * nat) :=
  row_start ← range_step total_images images_per_row;
  col_idx ← seq 0 images_per_row;
  let img_idx := row_start + col_idx in
  if img_idx <? total_images then [(col_idx, img_idx)] else [].

(** [os.path.basename] of [posixpath]: what follows the last slash. *)
Definition os_path_basename (p : string) : string :=
  String.rev (fst (Str.cut "/" (String.rev p))).

(** [os.path.splitext] of [posixpath]: the extension starts at the last
    dot of the last component, unless only dots come before it there. *)
Definition os_path_splitext (p : string) : string * string :=
  let name := os_path_basename p in
  match Str.cut "." (String.rev name) with
  | (after, Some before) =>
      if Str.all (Ascii.eqb ".") before then (p, EmptyString)
      else (Str.take (String.length p - (String.length after + 1)) p,
            String "." (String.rev after))
  | (_, None) => (p, EmptyString)
  end.

(** The values the category of an image is chosen from, [None] apart,
    which is never stored in [image_categories]. *)
Inductive Category := Hero | AboutMe | Gallery.

Definition category_name (category : Category) : string :=
  match category with
  | Hero => "Hero"
  | AboutMe => "AboutMe"
  | Gallery => "Gallery"
  end.

Definition same_category (a b : Category) : bool :=
  String.eqb (category_name a) (category_name b).

(** [category_counts[category] += 1]. *)
Definition count_up (category_counts : Category → nat) (category : Category)
  : Category → nat :=
  fun c =>
    if same_category c category then category_counts c + 1
    else category_counts c.

(** The name under which the [count]-th image of a category is stored. *)
Definition custom_filename (category : Category) (count : nat) (ext : string)
  : string :=
  if count =? 1 then category_name category +:+ ext
  else category_name category +:+ str_of_nat count +:+ ext.

(** The [for img_idx, category in image_categories.items()] loop; the
    state is [category_counts] and the calls made on the [ZipFile].
    [path_exists] answers [os.path.exists]; [None] is the [IndexError] of
    [data['all_images'][img_idx]]. *)
Fixpoint categorized_zip (path_exists : string → bool) (all_images : list ImageData)
    (image_categories : list (nat * Category))
    (st : (Category → nat) * list zip_call)
  : option ((Category → nat) * list zip_call) :=
  match image_categories with
  | [] => Some st
  | (img_idx, category) :: rest =>
      img_data ← all_images !! img_idx;
      match local_path img_data with
      | Some path =>
          if path_exists path then
            let original_filename := os_path_basename path in
            let ext := snd (os_path_splitext original_filename) in
            let ext := if Str.is_empty ext then ".jpg" else ext in
            let category_counts := count_up (fst st) category in
            categorized_zip path_exists all_images rest
              (category_counts,
               snd st ++
               [write path
                  (custom_filename category (category_counts category) ext)])
          else categorized_zip path_exists all_images rest st
      | None => categorized_zip path_exists all_images rest st
      end
  end.

(** ** Documents and webs of the examples *)

Definition html (body : list node) : node :=
  BeautifulSoup [Tag "html" [] [Tag "body" [] body]].

Definition a_href (href text : string) : node :=
  Tag "a" [("href", Str href)] [NavigableString text].

Definition img_src (src : string) : node :=
  Tag "img" [("src", Str src)] [].

(** The [k]-th [img] of a document (from 0), as [find_all] hands it out. *)
Definition nth_img (soup : node) (k : nat) : PageElement :=
  default (mkPageElement (NavigableString EmptyString) [] [])
    (find_all soup "img" !! k).

(** A link to another host whose name starts with the seed's. *)
Definition page_foreign_link : node :=
  html [Tag "nav" [] [a_href "https://example.com.evil.org/login" "Sign in"]].

(** A [header] with one link, then a [nav] whose second link has an
    unbalanced bracket in its host. *)
Definition page_nav_header : node :=
  html [Tag "header" [] [a_href "/promo" "Promo"];
        Tag "nav" [] [a_href "/about" "About";
                      a_href "https://example.com[x" "Broken"]].

(** Two images that differ in the fragment only. *)
Definition page_fragments : node :=
  html [img_src "https://example.com/logo.png#a";
        img_src "https://example.com/logo.png#b"].

(** An [h1], then an [h2], then an image, none under a semantic tag. *)
Definition page_two_headings : node :=
  html [Tag "h1" [] [NavigableString "Site"];
        Tag "div" [] [Tag "h2" [] [NavigableString "Team"];
                      Tag "img" [("src", Str "team.png")] []]].

(** Only an [h2] before the image. *)
Definition page_one_heading : node :=
  html [Tag "div" [] [Tag "h2" [] [NavigableString "Team"];
                      Tag "img" [("src", Str "team.png")] []]].

(** An image without [src], then one with. *)
Definition page_srcless : node :=
  html [Tag "img" [("alt", Str "spacer")] []; img_src "/photo.png"].

(** An image inside [<main id="top"><div class="Sidebar-left x">]. *)
Definition page_nested : node :=
  html [Tag "main" [("id", Str "top")]
          [Tag "div" [("class", Toks ["x"; "Sidebar-left"; "menu"])]
             [img_src "a.png"]]].

(** An image whose [src] makes [urljoin] raise. *)
Definition page_bad_src : node :=
  html [img_src "ftp://["].

(** A web that answers every request for a listed URL with its page and
    fails every other request. *)
Definition serve (pages : list (string * node)) : Web :=
  fun _ url => (fun soup => ("<html>", soup)) <$> dict_get url pages.

(** Three pages that all link to [/f], which cannot be fetched. *)
Definition web_retry : Web :=
  serve [("https://example.com/",
          html [Tag "nav" [] [a_href "/f" "F"; a_href "/p" "P"]]);
         ("https://example.com/p",
          html [Tag "nav" [] [a_href "/f" "F"; a_href "/q" "Q"]]);
         ("https://example.com/q",
          html [Tag "nav" [] [a_href "/f" "F"]])].

(** The run on [web_retry] after its first pass: the seed is stored and
    [/f] is at the head of the queue. *)
Definition retry_after_seed : Crawl :=
  crawl_step web_retry (mkCrawl __init__ [] ["https://example.com/"]).

(** A seed that is served, with an image whose [src] cannot be joined. *)
Definition web_bad_src : Web :=
  serve [("https://example.com/", page_bad_src)].

(** A GIF, which Pillow opens in palette mode, served as [image/gif]
    whatever the name it is asked for under. *)
Definition web_palette_jpg : ImageWeb :=
  fun _ => Some (mkImageResponse true (Some "image/gif")
                   (Some (PIL.mkImage "P"))).

(** A GIF and a JPEG, each under its own name and content type. *)
Definition web_images : ImageWeb :=
  fun u =>
    if Str.endswith u ".gif"
    then Some (mkImageResponse true (Some "image/gif") (Some (PIL.mkImage "P")))
    else Some (mkImageResponse true (Some "image/jpeg")
                 (Some (PIL.mkImage "RGB"))).

(** A record of [find_images] with the given index. *)
Definition image_rec (k : nat) (src : string) : ImageRec :=
  mkImageRec src EmptyString "Unknown section" k
    (mkPageElement (img_src src) [] []).

(** A dictionary of two pages, with three images and one. *)
Definition pages_two : list (string * PageData) :=
  [("https://example.com/",
    mkPageData "Home" "<html>"
      [image_rec 1 "https://example.com/photo.jpg";
       image_rec 2 "https://example.com/anim.gif";
       image_rec 3 "https://example.com/logo.jpg"] 1 3);
   ("https://example.com/p",
    mkPageData "P: <one>" "<html>"
      [image_rec 1 "https://example.com/photo.jpg"] 0 1)].

(** A seed with a link and two images, and the page linked, with one. *)
Definition web_gallery : Web :=
  serve [("https://example.com/",
          html [Tag "nav" [] [a_href "/p" "P"];
                img_src "/photo.jpg"; img_src "/anim.gif"]);
         ("https://example.com/p", html [img_src "/photo.jpg"])].


(** A list of links outside any navigation element. *)
Definition page_list : node :=
  html [Tag "ul" [] [Tag "li" [] [a_href "/x" "X"];
                     Tag "li" [] [a_href "/y" "Y"]]].


(** ** The specification, in its own words

    Definitions that follow the wording of the specification, to be
    compared with the methods above. *)

(** The tags that count as semantic ones. *)
Definition claimed_tags : list string :=
  ["header"; "nav"; "main"; "section"; "article"; "aside"; "footer"].

(** The fixed set of keywords. *)
Definition claimed_keywords : list string :=
  ["header"; "nav"; "menu"; "sidebar"; "footer"; "content"; "main"; "banner"].

(** The texts that start at the positions of [s], the empty one at its
    end included. *)
Fixpoint tails (s : string) : list string :=
  s :: match s with
       | EmptyString => []
       | String _ s' => tails s'
       end.

(** A keyword occurs in a text when the text goes on with it from one of
    its positions. *)
Definition occurs_in (keyword s : string) : bool :=
  existsb (String.prefix keyword) (tails s).

(** A class token matches when one of the keywords occurs in it, the
    token taken in lower case: [Sidebar-left] and [unavailable] match,
    [navy] does, [hero] does not. *)
Definition token_matches (cls : string) : bool :=
  existsb (fun keyword => occurs_in keyword (Str.lower cls)) claimed_keywords.

(** Per parent: its tag name when it is one of the seven tags, [#id] when
    it has an id that is not empty, and [.class] for the first class token
    that matches, and for no other. *)
Definition claimed_indicators (current : node) : list string :=
  (if bool_decide (name current ∈ claimed_tags) then [name current] else []) ++
  match get current "id" with
  | Some i => if truthy i then ["#" +:+ as_str i] else []
  | None => []
  end ++
  match get current "class" with
  | Some c =>
      match List.find token_matches (iter c) with
      | Some cls => if truthy c then ["." +:+ cls] else []
      | None => []
      end
  | None => []
  end.

(** The stripped text of the nearest preceding element named [heading],
    when there is one and its text is not empty. *)
Definition heading_text (img : PageElement) (heading : string) : option string :=
  match find_previous img heading with
  | Some prev_heading =>
      let text := Str.strip (get_text prev_heading) in
      if Str.is_empty text then None else Some text
  | None => None
  end.

(** The nearest preceding element, whatever its level among h1..h6, that
    has non-empty text. *)
Definition nearest_heading (img : PageElement) : option node :=
  List.find
    (fun n => existsb (fun h => is_tag h n) headings &&
              negb (Str.is_empty (Str.strip (get_text n))))
    (previous_elements img).

(** The text of the [src] attribute of a tag. *)
Definition src_text (img : PageElement) : string :=
  from_option as_str EmptyString (get (self img) "src").


(** The extension, the format and the quality that the content type and
    the suffix of the URL call for. *)
Definition claimed_format (content_type img_url : string)
  : string * string * option nat :=
  if urllib.mem content_type ["image/jpeg"; "image/jpg"] ||
     (Str.endswith (Str.lower img_url) ".jpg" ||
      Str.endswith (Str.lower img_url) ".jpeg")
  then (".jpg", "JPEG", Some 95)
  else (".png", "PNG", None).

(** An [img] tag that [find_images] does not skip. *)
Definition has_src (img : PageElement) : bool :=
  match get (self img) "src" with
  | Some src => truthy src
  | None => false
  end.

(** * Properties *)

(** ** Strings and URLs *)

Lemma app_cons (a : ascii) (s t : string) :
  String a s +:+ t = String a (s +:+ t).
Proof. reflexivity. Qed.

Lemma app_empty (t : string) : EmptyString +:+ t = t.
Proof. reflexivity. Qed.

Lemma app_empty_r (s : string) : s +:+ EmptyString = s.
Proof. induction s as [|a s IH]; [done|]. by rewrite app_cons, IH. Qed.

Lemma has_app (c : ascii) (s t : string) :
  Str.has c (s +:+ t) = Str.has c s || Str.has c t.
Proof.
  induction s as [|a s IH]; [done|].
  rewrite app_cons. simpl. rewrite IH. by rewrite orb_assoc.
Qed.

Lemma has_rev_app (c : ascii) (s t : string) :
  Str.has c (String.rev_app s t) = Str.has c s || Str.has c t.
Proof.
  revert t. induction s as [|a s IH]; intros t; simpl; [done|].
  rewrite IH. simpl. destruct (Str.eqb_ascii a c), (Str.has c s); done.
Qed.

Lemma has_rev (c : ascii) (s : string) :
  Str.has c (String.rev s) = Str.has c s.
Proof. unfold String.rev. rewrite has_rev_app. simpl. by rewrite orb_false_r. Qed.

(** The text before the first [c] holds no [c]. *)
Lemma has_cut_fst (c : ascii) (s : string) :
  Str.has c (Str.cut c s).1 = false.
Proof.
  induction s as [|a s IH]; simpl; [done|].
  destruct (Str.eqb_ascii a c) eqn:Ha; [done|].
  destruct (Str.cut c s) as [l r]. simpl in *. by rewrite Ha, IH.
Qed.

(** Both sides of a cut are free of what the whole is free of. *)
Lemma has_cut (d c : ascii) (s : string) :
  Str.has d s = false →
  Str.has d (Str.cut c s).1 = false ∧
  Str.has d (default EmptyString (Str.cut c s).2) = false.
Proof.
  induction s as [|a s IH]; simpl; [done|].
  intros [Ha Hs]%orb_false_elim. destruct (Str.eqb_ascii a c); [done|].
  destruct (Str.cut c s) as [l r]. simpl in *. rewrite Ha. by apply IH.
Qed.

Lemma has_span (d : ascii) (p : ascii → bool) (s : string) :
  Str.has d s = false →
  Str.has d (Str.span p s).1 = false ∧ Str.has d (Str.span p s).2 = false.
Proof.
  induction s as [|a s IH]; simpl; [done|].
  intros [Ha Hs]%orb_false_elim. destruct (p a); simpl; [|by rewrite Ha, Hs].
  destruct (Str.span p s) as [l r]. simpl in *. rewrite Ha. by apply IH.
Qed.

Lemma all_span (p : ascii → bool) (s : string) :
  Str.all p (Str.span p s).1 = true.
Proof.
  induction s as [|a s IH]; simpl; [done|].
  destruct (p a) eqn:Ha; [|done].
  destruct (Str.span p s) as [l r]. simpl in *. by rewrite Ha, IH.
Qed.

Lemma has_all (d : ascii) (p : ascii → bool) (s : string) :
  p d = false → Str.all p s = true → Str.has d s = false.
Proof.
  intros Hd. induction s as [|a s IH]; simpl; [done|].
  intros [Ha Hs]%andb_prop. rewrite (IH Hs), orb_false_r.
  unfold Str.eqb_ascii. destruct (Ascii.eqb_spec a d) as [->|]; [|done].
  congruence.
Qed.

Lemma has_filter (d : ascii) (p : ascii → bool) (s : string) :
  Str.has d s = false → Str.has d (Str.filter p s) = false.
Proof.
  induction s as [|a s IH]; simpl; [done|].
  intros [Ha Hs]%orb_false_elim. destruct (p a); simpl; rewrite ?Ha; auto.
Qed.

Lemma has_drop (d : ascii) (n : nat) (s : string) :
  Str.has d s = false → Str.has d (Str.drop n s) = false.
Proof.
  revert s. induction n as [|n IH]; intros [|a s]; simpl; try done.
  intros [_ Hs]%orb_false_elim. by apply IH.
Qed.

(** A scheme, put in lower case, holds no [#]. *)
Lemma has_lower_scheme (s : string) :
  Str.all urllib.scheme_char s = true → Str.has "#" (Str.lower s) = false.
Proof.
  induction s as [|a s IH]; simpl; [done|].
  intros [Ha Hs]%andb_prop. rewrite (IH Hs), orb_false_r.
  revert Ha. destruct a as [[] [] [] [] [] [] [] []]; by vm_compute.
Qed.

(** No component that [urlsplit] returns before the fragment holds a
    [#]. *)
Lemma urlsplit_no_hash (url dflt sch nl p q f : string) :
  Str.has "#" dflt = false →
  urllib.urlsplit url dflt = Some (sch, nl, p, q, f) →
  Str.has "#" sch = false ∧ Str.has "#" nl = false ∧
  Str.has "#" p = false ∧ Str.has "#" q = false.
Proof.
  intros Hdflt. unfold urllib.urlsplit.
  set (url1 := Str.filter urllib.safe_byte _).
  set (dflt1 := Str.filter urllib.safe_byte _).
  assert (Hdflt1 : Str.has "#" dflt1 = false).
  { unfold dflt1, Str.rstrip_by, Str.lstrip_by. apply has_filter.
    rewrite has_rev. apply has_span. rewrite has_rev. by apply has_span. }
  destruct (urllib.split_scheme url1 dflt1) as [sch0 url2] eqn:Hsch.
  assert (Hsch0 : Str.has "#" sch0 = false).
  { revert Hsch. unfold urllib.split_scheme.
    destruct (Str.cut ":" url1) as [[|a0 before] [rest|]];
      try (by intros [= <- _]).
    destruct (urllib.is_alpha a0 && _) eqn:Hc; [|by intros [= <- _]].
    intros [= <- _]. apply (has_lower_scheme (String a0 before)).
    by apply andb_prop in Hc as [_ ?]. }
  destruct (if Str.startswith url2 "//" then urllib._splitnetloc url2
            else (EmptyString, url2)) as [nl0 url3] eqn:Hnl.
  assert (Hnl0 : Str.has "#" nl0 = false).
  { destruct (Str.startswith url2 "//"); [|by injection Hnl as <- _].
    unfold urllib._splitnetloc in Hnl.
    pose proof (all_span urllib.netloc_char (Str.drop 2 url2)) as Hall.
    rewrite Hnl in Hall. simpl in Hall.
    by apply (has_all _ urllib.netloc_char). }
  destruct (urllib.bad_brackets nl0); [done|].
  pose proof (has_cut_fst "#" url3) as Hcut.
  destruct (Str.cut "#" url3) as [url4 frag]. simpl in Hcut.
  pose proof (has_cut "#" "?" url4 Hcut) as [Hp Hq].
  destruct (Str.cut "?" url4) as [url5 qry]. simpl in Hp, Hq.
  by intros [= <- <- <- <- _].
Qed.

Lemma splitparams_no_hash (p : string) :
  Str.has "#" p = false →
  Str.has "#" (urllib._splitparams p).1 = false ∧
  Str.has "#" (urllib._splitparams p).2 = false.
Proof.
  intros Hp. unfold urllib._splitparams.
  assert (Hrev : Str.has "#" (String.rev p) = false) by by rewrite has_rev.
  pose proof (has_cut "#" "/" _ Hrev) as [Hlast Hhead].
  destruct (Str.cut "/" (String.rev p)) as [rlast rhead]. simpl in Hlast, Hhead.
  assert (Hlast' : Str.has "#" (String.rev rlast) = false) by by rewrite has_rev.
  pose proof (has_cut "#" ";" _ Hlast') as [Hl Hr].
  destruct (Str.cut ";" (String.rev rlast)) as [l [r|]]; simpl in *; [|done].
  split; [|done]. rewrite has_app, Hl, orb_false_r.
  destruct rhead as [h|]; [|done]. simpl in Hhead.
  by rewrite has_app, has_rev, Hhead.
Qed.

Lemma urlunsplit_no_hash (sch nl url qry : string) :
  Str.has "#" sch = false → Str.has "#" nl = false →
  Str.has "#" url = false → Str.has "#" qry = false →
  Str.has "#" (urllib.urlunsplit sch nl url qry EmptyString) = false.
Proof.
  intros Hsch Hnl Hurl Hqry. unfold urllib.urlunsplit. cbn [Str.is_empty].
  repeat match goal with
         | |- context [if ?b then _ else _] => destruct b
         end;
    rewrite ?has_app, ?Hsch, ?Hnl, ?Hurl, ?Hqry; done.
Qed.

(** The cleaned URL holds no [#]. *)
Lemma clean_url_no_hash (absolute_url clean : string) :
  clean_url absolute_url = Some clean → Str.has "#" clean = false.
Proof.
  unfold clean_url, urllib.urlparse, urllib.urlparse_with.
  intros (parsed & Hparsed & [= <-])%bind_Some.
  destruct (urllib.urlsplit absolute_url EmptyString)
    as [[[[[sch nl] p] q] f]|] eqn:Hsplit; [|done].
  apply urlsplit_no_hash in Hsplit as (Hsch & Hnl & Hp & Hq); [|done].
  pose proof (splitparams_no_hash p Hp) as [Hp1 Hp2].
  unfold urllib.urlunparse, urllib.replace_fragment.
  destruct (urllib.mem sch urllib.uses_params && Str.has ";" p).
  - destruct (urllib._splitparams p) as [p1 p2]. simpl in Hp1, Hp2.
    injection Hparsed as <-. simpl.
    destruct (Str.is_empty p2); apply urlunsplit_no_hash;
      rewrite ?has_app, ?Hp1, ?Hp2; done.
  - injection Hparsed as <-. simpl. by apply urlunsplit_no_hash.
Qed.

Lemma all_app (p : ascii → bool) (s t : string) :
  Str.all p (s +:+ t) = Str.all p s && Str.all p t.
Proof.
  induction s as [|a s IH]; [done|].
  rewrite app_cons. simpl. by rewrite IH, andb_assoc.
Qed.

Lemma filter_app (p : ascii → bool) (s t : string) :
  Str.filter p (s +:+ t) = Str.filter p s +:+ Str.filter p t.
Proof.
  induction s as [|a s IH]; [done|].
  rewrite app_cons. simpl. rewrite IH. by destruct (p a).
Qed.

(** A span stops at the latest where a character fails the test. *)
Lemma span_app_stop (p : ascii → bool) (s t : string) (c : ascii) :
  p c = false →
  Str.span p (s +:+ String c t) =
  ((Str.span p s).1, (Str.span p s).2 +:+ String c t).
Proof.
  intros Hc. induction s as [|a s IH].
  - rewrite app_empty. simpl. by rewrite Hc.
  - rewrite app_cons. simpl. destruct (p a); [|done].
    rewrite IH. by destruct (Str.span p s).
Qed.

Lemma cut_absent (c : ascii) (s : string) :
  Str.has c s = false → Str.cut c s = (s, None).
Proof.
  induction s as [|a s IH]; simpl; [done|].
  intros [Ha Hs]%orb_false_elim. by rewrite Ha, (IH Hs).
Qed.

Lemma cut_app_absent (c : ascii) (s t : string) :
  Str.has c s = false →
  Str.cut c (s +:+ t) = (s +:+ (Str.cut c t).1, (Str.cut c t).2).
Proof.
  induction s as [|a s IH]; intros Hs.
  - rewrite app_empty. by destruct (Str.cut c t).
  - rewrite app_cons. simpl in *. apply orb_false_elim in Hs as [Ha Hs].
    rewrite Ha, (IH Hs). done.
Qed.

Lemma cut_app_present (c : ascii) (s t : string) :
  Str.has c s = true →
  ∃ l r, Str.cut c s = (l, Some r) ∧ Str.cut c (s +:+ t) = (l, Some (r +:+ t)).
Proof.
  induction s as [|a s IH]; [done|]. rewrite app_cons. simpl.
  destruct (Str.eqb_ascii a c); simpl; [by eauto|].
  intros (l & r & -> & ->)%IH. eauto.
Qed.

(** What follows a [#] does not change how the scheme is split off. *)
Lemma split_scheme_fragment (v g dflt : string) :
  Str.has "#" v = false →
  urllib.split_scheme (v +:+ String "#" g) dflt =
  ((urllib.split_scheme v dflt).1,
   (urllib.split_scheme v dflt).2 +:+ String "#" g).
Proof.
  intros Hv. unfold urllib.split_scheme.
  destruct (Str.has ":" v) eqn:Hcolon.
  - destruct (cut_app_present ":" v (String "#" g) Hcolon)
      as ([|a0 before] & r & -> & ->); [done|].
    by destruct (urllib.is_alpha a0 && _).
  - rewrite (cut_absent _ _ Hcolon), (cut_app_absent _ _ _ Hcolon).
    simpl. destruct (Str.cut ":" g) as [l [r|]]; simpl.
    + destruct v as [|a v']; [done|].
      rewrite !app_cons. simpl. rewrite all_app. simpl.
      by rewrite !andb_false_r.
    + by destruct v.
Qed.

Lemma startswith_fragment (w g : string) :
  Str.startswith (w +:+ String "#" g) "//" = Str.startswith w "//".
Proof.
  destruct w as [|a [|b w]]; rewrite ?app_cons, ?app_empty; simpl;
    rewrite ?andb_false_r; done.
Qed.

Lemma drop_2_app (w t : string) :
  Str.startswith w "//" = true → Str.drop 2 (w +:+ t) = Str.drop 2 w +:+ t.
Proof.
  destruct w as [|a [|b w]]; simpl; rewrite ?andb_false_r; try done.
Qed.

(** [urlsplit] on a URL with a fragment: the other components are those
    of the URL without it. *)
Lemma urlsplit_fragment (u f dflt : string) :
  Str.has "#" u = false →
  urllib.urlsplit (u +:+ String "#" f) dflt =
  (fun r : string * string * string * string * string =>
     (r.1, Str.filter urllib.safe_byte f))
    <$> urllib.urlsplit u dflt.
Proof.
  intros Hu. unfold urllib.urlsplit.
  unfold Str.lstrip_by at 1. rewrite span_app_stop by done. cbn [fst snd].
  fold (Str.lstrip_by urllib.c0_or_space u). rewrite filter_app.
  change (Str.filter urllib.safe_byte (String "#" f))
    with (String "#" (Str.filter urllib.safe_byte f)).
  set (v := Str.filter urllib.safe_byte (Str.lstrip_by urllib.c0_or_space u)).
  set (g := Str.filter urllib.safe_byte f).
  set (d := Str.filter urllib.safe_byte _).
  assert (Hv : Str.has "#" v = false).
  { unfold v, Str.lstrip_by. apply has_filter. by apply has_span. }
  rewrite (split_scheme_fragment v g d Hv).
  assert (Hw : Str.has "#" (urllib.split_scheme v d).2 = false).
  { unfold urllib.split_scheme.
    pose proof (has_cut "#" ":" v Hv) as [_ Hrest].
    destruct (Str.cut ":" v) as [[|a0 before] [rest|]]; try done.
    by destruct (urllib.is_alpha a0 && _). }
  destruct (urllib.split_scheme v d) as [sch w]. cbn [fst snd] in *.
  rewrite startswith_fragment.
  assert (Hsplit :
    (if Str.startswith w "//" then urllib._splitnetloc (w +:+ String "#" g)
     else (EmptyString, w +:+ String "#" g)) =
    ((if Str.startswith w "//" then urllib._splitnetloc w
      else (EmptyString, w)).1,
     (if Str.startswith w "//" then urllib._splitnetloc w
      else (EmptyString, w)).2 +:+ String "#" g)).
  { destruct (Str.startswith w "//") eqn:Hslash; [|done].
    unfold urllib._splitnetloc. rewrite (drop_2_app _ _ Hslash).
    by rewrite span_app_stop. }
  rewrite Hsplit.
  assert (Hrest : Str.has "#"
            (if Str.startswith w "//" then urllib._splitnetloc w
             else (EmptyString, w)).2 = false).
  { destruct (Str.startswith w "//"); [|done].
    unfold urllib._splitnetloc. apply has_span. by apply has_drop. }
  destruct (if Str.startswith w "//" then urllib._splitnetloc w
            else (EmptyString, w)) as [nl rest]. cbn [fst snd] in *.
  destruct (urllib.bad_brackets nl); [done|].
  rewrite (cut_app_absent _ _ _ Hrest), (cut_absent _ _ Hrest). simpl.
  rewrite app_empty_r.
  by destruct (Str.cut "?" rest).
Qed.

(** Two URLs that differ in the fragment only are cleaned to one URL. *)
Lemma clean_url_fragment (u f : string) :
  Str.has "#" u = false →
  clean_url (u +:+ String "#" f) = clean_url u.
Proof.
  intros Hu. unfold clean_url, urllib.urlparse, urllib.urlparse_with.
  rewrite (urlsplit_fragment _ _ _ Hu).
  destruct (urllib.urlsplit u EmptyString) as [[[[[sch nl] p] q] f0]|];
    [|done].
  cbn [fmap option_fmap option_map fst].
  destruct (urllib.mem sch urllib.uses_params && Str.has ";" p); [|done].
  by destruct (urllib._splitparams p).
Qed.

Lemma startswith_split (s p : string) :
  Str.startswith s p = true → ∃ rest, s = p +:+ rest.
Proof.
  revert s. induction p as [|b p IH]; intros s; simpl.
  - by exists s.
  - destruct s as [|a s]; [done|]. intros [Ha Hs]%andb_prop.
    apply Ascii.eqb_eq in Ha as ->. destruct (IH s Hs) as [rest ->].
    by exists rest.
Qed.

Lemma is_empty_app (s t : string) :
  Str.is_empty (s +:+ t) = Str.is_empty s && Str.is_empty t.
Proof. by destruct s. Qed.

(** A URL that starts with [http://] or [https://] has a scheme. *)
Lemma urlparse_http_scheme (base dflt : string) (b : urllib.ParseResult) :
  Str.startswith base "http://" || Str.startswith base "https://" = true →
  urllib.urlparse_with base dflt = Some b →
  Str.is_empty (urllib.scheme b) = false.
Proof.
  unfold urllib.urlparse_with.
  intros Hhttp Hparse.
  assert (Hsplit : match urllib.urlsplit base dflt with
                   | Some (sch, _, _, _, _) => Str.is_empty sch = false
                   | None => True
                   end).
  { unfold urllib.urlsplit.
    apply orb_prop in Hhttp as [H|H]; apply startswith_split in H as [rest ->].
    - change ("http://" +:+ rest)
        with (String "h" (String "t" (String "t" (String "p"
                (String ":" (String "/" (String "/" rest))))))).
      unfold Str.lstrip_by at 1. simpl.
      destruct (urllib._splitnetloc _) as [nl url].
      destruct (urllib.bad_brackets nl); [done|].
      destruct (Str.cut "#" url) as [url0 frag].
      by destruct (Str.cut "?" url0).
    - change ("https://" +:+ rest)
        with (String "h" (String "t" (String "t" (String "p" (String "s"
                (String ":" (String "/" (String "/" rest)))))))).
      unfold Str.lstrip_by at 1. simpl.
      destruct (urllib._splitnetloc _) as [nl url].
      destruct (urllib.bad_brackets nl); [done|].
      destruct (Str.cut "#" url) as [url0 frag].
      by destruct (Str.cut "?" url0). }
  destruct (urllib.urlsplit base dflt) as [[[[[sch nl] p] q] f]|]; [|done].
  destruct (if urllib.mem sch urllib.uses_params && Str.has ";" p
            then urllib._splitparams p else (p, EmptyString)) as [p' prm].
  by injection Hparse as <-.
Qed.

(** A URL put together with a scheme is not empty. *)
Lemma urlunparse_nonempty (r : urllib.ParseResult) :
  Str.is_empty (urllib.scheme r) = false →
  Str.is_empty (urllib.urlunparse r) = false.
Proof.
  intros Hsch. unfold urllib.urlunparse, urllib.urlunsplit. rewrite Hsch.
  repeat match goal with
         | |- context [if ?b then _ else _] => destruct b
         end;
    rewrite ?is_empty_app, ?Hsch; done.
Qed.

(** Joined to a base that starts with [http://] or [https://], a
    reference gives a URL that is not empty. *)
Lemma urljoin_nonempty (base url joined : string) :
  Str.startswith base "http://" || Str.startswith base "https://" = true →
  urllib.urljoin base url = Some joined →
  Str.is_empty joined = false.
Proof.
  intros Hhttp. unfold urllib.urljoin.
  assert (Hbase : Str.is_empty base = false).
  { apply orb_prop in Hhttp as [H|H]; apply startswith_split in H as [rest ->];
      done. }
  rewrite Hbase. destruct (Str.is_empty url) eqn:Hurl; [by intros [= <-]|].
  intros (b & Hb & (u & Hu & Hjoin)%bind_Some)%bind_Some.
  pose proof (urlparse_http_scheme _ _ _ Hhttp Hb) as Hsch.
  destruct (negb (String.eqb (urllib.scheme u) (urllib.scheme b)) || _)
    eqn:Hsame; [by injection Hjoin as <-|].
  apply orb_false_elim in Hsame as [Hsame%negb_false_iff%String.eqb_eq _].
  rewrite <- Hsame in Hsch.
  repeat match type of Hjoin with
         | (if ?c then _ else _) = _ => destruct c
         end;
    injection Hjoin as <-; by apply urlunparse_nonempty.
Qed.

(** The absolute form of an [src] is not empty when the [src] or the
    base is a URL with [http://] or [https://] in front. *)
Lemma absolute_src_nonempty (base_url src absolute : string) :
  Str.startswith base_url "http://" || Str.startswith base_url "https://" = true →
  absolute_src base_url src = Some absolute →
  Str.is_empty absolute = false.
Proof.
  intros Hhttp. unfold absolute_src.
  destruct (Str.startswith src "//"); [by intros [= <-]|].
  destruct (Str.startswith src "/"); [by apply urljoin_nonempty|].
  destruct (Str.startswith src "http://" || Str.startswith src "https://")
    eqn:Hsrc; simpl; [|by apply urljoin_nonempty].
  intros [= <-].
  apply orb_prop in Hsrc as [H|H]; apply startswith_split in H as [rest ->];
    done.
Qed.

(** ** Image location *)

Lemma mem_elem_of (s : string) (l : list string) :
  urllib.mem s l = bool_decide (s ∈ l).
Proof.
  unfold urllib.mem. induction l as [|x l IH]; cbn [existsb].
  - symmetry. apply bool_decide_eq_false_2. by intros ?%elem_of_nil.
  - rewrite IH. destruct (String.eqb_spec s x) as [->|Hne]; simpl.
    + symmetry. apply bool_decide_eq_true_2. by left.
    + apply bool_decide_ext. rewrite elem_of_cons. tauto.
Qed.

Lemma class_indicator_find (cs : list string) :
  class_indicator cs =
  match List.find has_keyword cs with
  | Some cls => ["." +:+ cls]
  | None => []
  end.
Proof. induction cs as [|c cs IH]; simpl; [done|]. by destruct (has_keyword c). Qed.

Lemma prefix_startswith (p s : string) :
  String.prefix p s = Str.startswith s p.
Proof.
  revert s. induction p as [|b p IH]; intros [|a s]; simpl; try done.
  unfold Str.eqb_ascii.
  destruct (ascii_dec b a) as [->|Hne].
  - by rewrite Ascii.eqb_refl, IH.
  - destruct (Ascii.eqb_spec a b) as [->|_]; done.
Qed.

(** The two ways of looking for a keyword in a text agree. *)
Lemma occurs_in_contains (keyword s : string) :
  occurs_in keyword s = Str.contains keyword s.
Proof.
  unfold occurs_in. induction s as [|a s IH]; cbn [tails existsb Str.contains].
  - by rewrite prefix_startswith.
  - by rewrite prefix_startswith, IH.
Qed.

Lemma startswith_app (p rest : string) : Str.startswith (p +:+ rest) p = true.
Proof.
  induction p as [|b p IH]; [done|]. rewrite app_cons. simpl.
  unfold Str.eqb_ascii. by rewrite Ascii.eqb_refl, IH.
Qed.

(** A keyword occurs in a text exactly when the text is made of a text,
    the keyword and a text. *)
Lemma contains_spec (keyword s : string) :
  Str.contains keyword s = true ↔ ∃ pre post, s = pre +:+ keyword +:+ post.
Proof.
  split.
  - induction s as [|a s IH]; cbn [Str.contains].
    + rewrite orb_false_r. intros [post ->]%startswith_split.
      by exists EmptyString, post.
    + intros [[post ->]%startswith_split|(pre & post & ->)%IH]%orb_prop.
      * by exists EmptyString, post.
      * by exists (String a pre), post.
  - intros (pre & post & ->). induction pre as [|a pre IH].
    + rewrite app_empty. destruct (keyword +:+ post) eqn:Hs;
        cbn [Str.contains]; rewrite <- Hs, startswith_app; done.
    + rewrite app_cons. cbn [Str.contains]. by rewrite IH, orb_true_r.
Qed.

(** The test of the code on a class token is the matching of the
    specification. *)
Lemma has_keyword_matches (cls : string) : has_keyword cls = token_matches cls.
Proof.
  unfold has_keyword, token_matches.
  change keywords with claimed_keywords.
  induction claimed_keywords as [|keyword rest IH]; [done|].
  cbn [existsb]. by rewrite occurs_in_contains, IH.
Qed.

Lemma find_ext {A} (f g : A → bool) (l : list A) :
  (∀ x, f x = g x) → List.find f l = List.find g l.
Proof.
  intros Hfg. induction l as [|x l IH]; [done|]. simpl. by rewrite Hfg, IH.
Qed.

Lemma indicators_of_claimed (current : node) :
  indicators_of current = claimed_indicators current.
Proof.
  unfold indicators_of, claimed_indicators. rewrite mem_elem_of.
  change semantic_tags with claimed_tags.
  do 2 f_equal. destruct (get current "class") as [c|]; [|done].
  rewrite class_indicator_find, (find_ext _ _ _ has_keyword_matches).
  destruct (truthy c) eqn:Hc; [by destruct (List.find _ _)|].
  destruct c as [[|??]|[|??]]; try discriminate; done.
Qed.

(** The loop appends, parent by parent, the indicators of the first
    [10 - depth] parents. *)
Lemma walk_up_flat_map (chain : list node) (depth : nat) (acc : list string) :
  walk_up chain depth acc =
  acc ++ flat_map indicators_of (take (10 - depth) chain).
Proof.
  revert depth acc. induction chain as [|current up IH]; intros depth acc; simpl.
  - by rewrite take_nil, app_nil_r.
  - destruct (Nat.ltb_spec depth 10) as [Hlt|Hge].
    + rewrite IH. replace (10 - depth) with (S (10 - S depth)) by lia.
      simpl. by rewrite <- app_assoc.
    + replace (10 - depth) with 0 by lia. simpl. by rewrite app_nil_r.
Qed.

(** C7. The ancestor walk of [get_image_location] looks at the first ten
    parents at most; for each, in the order met, it collects the tag name
    when it is one of header, nav, main, section, article, aside and
    footer, [#id] when the parent has an id that is not empty, and
    [.class] for the first class token that matches a keyword and for no
    other; a token matches when one of header, nav, menu, sidebar, footer,
    content, main and banner occurs in it, the token taken in lower case;
    when anything was collected the label is the collected list reversed
    and joined with [" > "]. *)
Theorem C7_ancestor_walk (img_element : PageElement) :
  let walked := take 10 (parents img_element) in
  let collected := flat_map claimed_indicators walked in
  length walked ≤ 10 ∧
  walk_up (parents img_element) 0 [] = collected ∧
  (collected ≠ [] →
   get_image_location img_element = Str.join " > " (reverse collected)) ∧
  (∀ cls,
     token_matches cls = true ↔
     ∃ keyword pre post,
       keyword ∈ claimed_keywords ∧
       Str.lower cls = pre +:+ keyword +:+ post) ∧
  (∀ current,
     indicators_of current =
       (if bool_decide (name current ∈ claimed_tags)
        then [name current] else []) ++
       (if bool_decide (truthy <$> get current "id" = Some true)
        then ["#" +:+ from_option as_str EmptyString (get current "id")]
        else []) ++
       match List.find token_matches
               (from_option iter [] (get current "class")) with
       | Some cls =>
           if bool_decide (truthy <$> get current "class" = Some true)
           then ["." +:+ cls] else []
       | None => []
       end).
Proof.
  intros walked collected.
  assert (Hwalk : walk_up (parents img_element) 0 [] = collected).
  { rewrite walk_up_flat_map. simpl. unfold collected, walked.
    apply flat_map_ext. intros. apply indicators_of_claimed. }
  split_and!.
  - unfold walked. rewrite length_take. lia.
  - exact Hwalk.
  - intros Hne. unfold get_image_location. rewrite Hwalk.
    destruct collected as [|i rest] eqn:Hc; [done|].
    simpl. destruct (reverse (i :: rest)) eqn:Hr; [|done].
    apply (f_equal length) in Hr. rewrite length_reverse in Hr. discriminate.
  - intros cls. rewrite <- has_keyword_matches. unfold has_keyword.
    change keywords with claimed_keywords.
    rewrite existsb_exists. split.
    + intros (keyword & Hin & (pre & post & Hcls)%contains_spec).
      exists keyword, pre, post. by rewrite list_elem_of_In.
    + intros (keyword & pre & post & Hin & Hcls).
      exists keyword. rewrite <- list_elem_of_In. split; [done|].
      apply contains_spec. eauto.
  - intros current. rewrite indicators_of_claimed. unfold claimed_indicators.
    f_equal. destruct (get current "id") as [i|], (get current "class") as [c|];
      cbn [fmap option_fmap option_map from_option];
      repeat case_bool_decide; repeat destruct (truthy _);
      try done; try congruence.
Qed.

(** The image of [page_nested] lies in a [div] whose class tokens are
    [x], [Sidebar-left] and [menu], inside [<main id="top">]. *)
Lemma C7_ancestor_walk_witness :
  flat_map claimed_indicators (take 10 (parents (nth_img page_nested 0))) =
    [".Sidebar-left"; "main"; "#top"] ∧
  get_image_location (nth_img page_nested 0) = "#top > main > .Sidebar-left".
Proof.
  assert (Hcollected :
    flat_map claimed_indicators (take 10 (parents (nth_img page_nested 0))) =
    [".Sidebar-left"; "main"; "#top"]) by (vm_compute; reflexivity).
  split; [exact Hcollected|].
  destruct (C7_ancestor_walk (nth_img page_nested 0)) as (_ & _ & Hlabel & _).
  cbv zeta in Hlabel. rewrite Hcollected in Hlabel.
  rewrite Hlabel; [vm_compute; reflexivity|discriminate].
Defined.

Example nested_location :
  get_image_location (nth_img page_nested 0) = "#top > main > .Sidebar-left".
Proof. by vm_compute. Qed.

Lemma is_empty_length (s : string) :
  (0 <? String.length s) = negb (Str.is_empty s).
Proof. by destruct s. Qed.

(** The levels whose nearest element is missing or has no text are passed
    over. *)
Lemma near_heading_skip (img : PageElement) (pre rest : list string) :
  Forall (fun h => heading_text img h = None) pre →
  near_heading img (pre ++ rest) = near_heading img rest.
Proof.
  induction 1 as [|h pre Hh _ IH]; simpl; [done|].
  unfold heading_text in Hh. destruct (find_previous img h) as [ph|]; [|done].
  rewrite is_empty_length. by destruct (Str.is_empty _).
Qed.

Lemma near_heading_hit (img : PageElement) (h text : string) (rest : list string) :
  heading_text img h = Some text →
  near_heading img (h :: rest) = ["Near heading: " +:+ Str.take 50 text].
Proof.
  unfold heading_text. simpl. destruct (find_previous img h) as [ph|]; [|done].
  rewrite is_empty_length. destruct (Str.is_empty _); [done|].
  by intros [= <-].
Qed.

(** C6, amended.  When the ancestor walk collects nothing, the label comes
    from a heading chosen by level and not by distance: the levels are
    tried in the order h1, ..., h6, of each level only the nearest
    preceding element is looked at, and the first level whose element has
    non-empty stripped text gives ["Near heading: "] followed by the first
    50 characters of that text; when no level does, the label is
    ["Unknown section"]. *)
Theorem C6_heading_by_level (img_element : PageElement) :
  walk_up (parents img_element) 0 [] = [] →
  (∀ pre heading post text,
     headings = pre ++ heading :: post →
     Forall (fun h => heading_text img_element h = None) pre →
     heading_text img_element heading = Some text →
     get_image_location img_element = "Near heading: " +:+ Str.take 50 text) ∧
  (Forall (fun h => heading_text img_element h = None) headings →
   get_image_location img_element = "Unknown section").
Proof.
  intros Hwalk. unfold get_image_location. rewrite Hwalk. split.
  - intros pre heading post text -> Hpre Htext.
    rewrite (near_heading_skip _ _ _ Hpre), (near_heading_hit _ _ _ _ Htext).
    done.
  - intros Hall.
    rewrite <- (app_nil_r headings), (near_heading_skip _ _ _ Hall). done.
Qed.

(** The image of [page_one_heading] has only an [h2] before it. *)
Lemma C6_heading_by_level_witness :
  walk_up (parents (nth_img page_one_heading 0)) 0 [] = [] ∧
  get_image_location (nth_img page_one_heading 0) = "Near heading: Team".
Proof.
  assert (Hwalk : walk_up (parents (nth_img page_one_heading 0)) 0 [] = [])
    by (vm_compute; reflexivity).
  split; [exact Hwalk|].
  apply (proj1 (C6_heading_by_level _ Hwalk) ["h1"] "h2"
           ["h3"; "h4"; "h5"; "h6"] "Team").
  - reflexivity.
  - repeat constructor.
  - vm_compute; reflexivity.
Defined.

(** In [page_two_headings] the nearest heading with text before the image
    is the [h2] "Team", and the label names the [h1] further up. *)
Lemma C6_nearest_heading_counterexample :
  walk_up (parents (nth_img page_two_headings 0)) 0 [] = [] ∧
  nearest_heading (nth_img page_two_headings 0) =
    Some (Tag "h2" [] [NavigableString "Team"]) ∧
  get_image_location (nth_img page_two_headings 0) = "Near heading: Site".
Proof. vm_compute. done. Qed.

(** ** Image listing *)

(** What the loop adds to [images], for the tags numbered from [start]. *)
Lemma find_images_loop_spec (base_url : string) (img_tags : list PageElement)
    (start : nat) (images result : list ImageRec) :
  find_images_loop base_url (enumerate start img_tags) images = Some result →
  ∃ new,
    result = images ++ new ∧
    element <$> new = List.filter has_src img_tags ∧
    Forall (fun r =>
              start < index r ∧
              img_tags !! (index r - 1 - start) = Some (element r) ∧
              has_src (element r) = true ∧
              absolute_src base_url (src_text (element r)) = Some (url r))
      new ∧
    StronglySorted lt (index <$> new).
Proof.
  revert start images result.
  induction img_tags as [|img rest IH]; intros start images result; simpl.
  - intros [= <-]. exists []. rewrite app_nil_r. repeat split; constructor.
  - assert (Hshift : ∀ new,
              Forall (fun r =>
                        S start < index r ∧
                        rest !! (index r - 1 - S start) = Some (element r) ∧
                        has_src (element r) = true ∧
                        absolute_src base_url (src_text (element r)) =
                          Some (url r)) new →
              Forall (fun r =>
                        start < index r ∧
                        (img :: rest) !! (index r - 1 - start) = Some (element r) ∧
                        has_src (element r) = true ∧
                        absolute_src base_url (src_text (element r)) =
                          Some (url r)) new).
    { intros new Hnew. eapply Forall_impl; [exact Hnew|].
      simpl. intros r (Hlt & Hnth & Hsrc & Hurl).
      split_and!; [lia| |done|done].
      replace (index r - 1 - start) with (S (index r - 1 - S start)) by lia.
      exact Hnth. }
    assert (Hhas : has_src img =
                   match get (self img) "src" with
                   | Some src => truthy src
                   | None => false
                   end) by done.
    destruct (get (self img) "src") as [src|] eqn:Hget.
    + destruct (truthy src) eqn:Htruthy; simpl.
      * destruct (absolute_src base_url (as_str src)) as [src'|] eqn:Habs;
          simpl; [|done].
        intros (new & -> & Hel & Hall & Hsorted)%IH.
        eexists (_ :: new). rewrite <- app_assoc. split; [reflexivity|].
        rewrite Hhas. split_and!.
        -- simpl. f_equal. exact Hel.
        -- constructor; [|by apply Hshift]. simpl.
           replace (start + 1 - 1 - start) with 0 by lia.
           unfold has_src, src_text. rewrite Hget.
           split_and!; [lia|done|done|done].
        -- simpl. constructor; [exact Hsorted|].
           apply Forall_fmap. eapply Forall_impl; [exact Hall|].
           simpl. intros r (Hlt & _). lia.
      * intros (new & -> & Hel & Hall & Hsorted)%IH.
        exists new. rewrite Hhas. split_and!; [done|done|by apply Hshift|done].
    + intros (new & -> & Hel & Hall & Hsorted)%IH.
      exists new. rewrite Hhas. split_and!; [done|done|by apply Hshift|done].
Qed.

(** C10. The records [find_images] returns are the [img] tags that have a
    non-empty [src], in document order, each with the absolute form of
    that [src] as its URL (not empty, for a page URL with [http://] or
    [https://] in front); the [index] of a record is the position, counted
    from 1, of its tag among all [img] tags of the page, those without
    [src] included, so the indices increase strictly; they need not be
    consecutive, and an index can exceed the number of records
    ([page_srcless] returns one record, with index 2). *)
Theorem C10_find_images_index (soup : node) (base_url : string)
    (result : list ImageRec) :
  find_images soup base_url = Some result →
  element <$> result = List.filter has_src (find_all soup "img") ∧
  Forall (fun r =>
            1 ≤ index r ∧
            find_all soup "img" !! (index r - 1) = Some (element r) ∧
            has_src (element r) = true ∧
            absolute_src base_url (src_text (element r)) = Some (url r))
    result ∧
  (Str.startswith base_url "http://" || Str.startswith base_url "https://" = true →
   Forall (fun r => url r ≠ EmptyString) result) ∧
  StronglySorted lt (index <$> result) ∧
  (index <$> default [] (find_images page_srcless "https://example.com/") = [2]).
Proof.
  unfold find_images.
  intros (new & -> & Hel & Hall & Hsorted)%find_images_loop_spec.
  simpl. split_and!; [done| | |done|by vm_compute].
  - eapply Forall_impl; [exact Hall|]. simpl.
    intros r (Hlt & Hnth & Hsrc & Hurl). rewrite Nat.sub_0_r in Hnth.
    split_and!; [lia|done|done|done].
  - intros Hhttp. eapply Forall_impl; [exact Hall|]. simpl.
    intros r (_ & _ & _ & Hurl) Hempty.
    apply (absolute_src_nonempty _ _ _ Hhttp) in Hurl. by rewrite Hempty in Hurl.
Qed.

Lemma C10_find_images_index_witness :
  find_images page_srcless "https://example.com/" =
    Some [mkImageRec "https://example.com/photo.png" EmptyString "Unknown section" 2
            (nth_img page_srcless 1)] ∧
  StronglySorted lt [2].
Proof.
  assert (H : find_images page_srcless "https://example.com/" =
              Some [mkImageRec "https://example.com/photo.png" EmptyString
                      "Unknown section" 2 (nth_img page_srcless 1)])
    by (vm_compute; reflexivity).
  split; [exact H|].
  exact (proj1 (proj2 (proj2 (proj2 (C10_find_images_index _ _ _ H))))).
Defined.

(** ** The crawl *)

Lemma find_navigation_links_frame (self self' : WebScraper) (soup : node)
    (base_url : string) (links : list string) :
  find_navigation_links self soup base_url = Some (links, self') →
  visited_urls self' = visited_urls self ∧
  session_log self' = session_log self.
Proof.
  unfold find_navigation_links.
  intros (self1 & Hself1 & Hrest)%bind_Some.
  destruct (try_nav_selectors _ _ _ _ _) as [links0 found].
  injection Hrest as _ <-.
  destruct (from_option Str.is_empty true (base_domain self)).
  - apply bind_Some in Hself1 as (parsed_url & _ & [= <-]). done.
  - by injection Hself1 as <-.
Qed.

(** The queue keeps its entries, and what is added is new to it and to
    the visited set. *)
Lemma enqueue_spec (visited : gset string) (page_links queue : list string) :
  NoDup queue →
  (∀ u, u ∈ queue → u ∉ visited) →
  NoDup (enqueue visited page_links queue) ∧
  (∀ u, u ∈ enqueue visited page_links queue → u ∉ visited) ∧
  (∀ u, u ∈ queue → u ∈ enqueue visited page_links queue) ∧
  (∀ u, u ∈ page_links → u ∉ visited → u ∈ enqueue visited page_links queue).
Proof.
  revert queue. induction page_links as [|link rest IH]; intros queue Hnd Hdisj.
  - simpl. split_and!; [done|done|done|]. by intros u ?%elem_of_nil.
  - simpl. destruct (bool_decide (link ∉ visited)) eqn:Hv; simpl;
      [destruct (bool_decide (link ∉ queue)) eqn:Hq; simpl|].
    + apply bool_decide_eq_true_1 in Hv, Hq.
      destruct (IH (queue ++ [link])) as (H1 & H2 & H3 & H4).
      { apply NoDup_app. split_and!; [done| |apply NoDup_singleton].
        intros u Hu ->%list_elem_of_singleton. done. }
      { intros u [Hu| ->%list_elem_of_singleton]%elem_of_app; auto. }
      split_and!; [done|done| |].
      * intros u Hu. apply H3, elem_of_app. by left.
      * intros u [->|Hu]%elem_of_cons Hnv; [|by apply H4].
        apply H3, elem_of_app. right. by apply list_elem_of_singleton.
    + apply bool_decide_eq_true_1 in Hv. apply bool_decide_eq_false_1 in Hq.
      destruct (IH queue Hnd Hdisj) as (H1 & H2 & H3 & H4).
      split_and!; [done|done|done|].
      intros u [->|Hu]%elem_of_cons Hnv; [|by apply H4].
      apply H3. by apply dec_stable.
    + apply bool_decide_eq_false_1 in Hv.
      destruct (IH queue Hnd Hdisj) as (H1 & H2 & H3 & H4).
      split_and!; [done|done|done|].
      intros u [->|Hu]%elem_of_cons Hnv; [done|by apply H4].
Qed.

(** Storing under a key the dictionary does not hold appends an entry. *)
Lemma dict_set_fresh {V} (key : string) (value : V) (d : list (string * V)) :
  key ∉ d.*1 → dict_set key value d = d ++ [(key, value)].
Proof.
  induction d as [|[k v] d IH]; simpl; [done|].
  intros Hk. apply not_elem_of_cons in Hk as [Hne Hk].
  destruct (String.eqb_spec k key) as [->|_]; [done|]. by rewrite IH.
Qed.

(** Storing never removes an entry. *)
Lemma dict_set_length {V} (key : string) (value : V) (d : list (string * V)) :
  length d ≤ length (dict_set key value d).
Proof.
  induction d as [|[k v] d IH]; simpl; [lia|].
  destruct (String.eqb k key); simpl; lia.
Qed.

Lemma dict_set_length_le {V} (key : string) (value : V) (d : list (string * V)) :
  length (dict_set key value d) ≤ S (length d).
Proof.
  induction d as [|[k v] d IH]; simpl; [lia|].
  destruct (String.eqb k key); simpl; lia.
Qed.

Section Crawl.

Context (web : Web) (max_pages : Z).

(** The ways one pass of the loop can end: the URL is dropped (it was
    visited already, or its [try] block raised), or its page is stored. *)
Lemma crawl_step_cases (c : Crawl) (current_url : string) (rest : list string) :
  urls_to_visit c = current_url :: rest →
  (pages_data (crawl_step web c) = pages_data c ∧
   urls_to_visit (crawl_step web c) = rest ∧
   visited_urls (scraper c) ⊆ visited_urls (scraper (crawl_step web c)) ∧
   visited_urls (scraper (crawl_step web c)) ⊆
     {[current_url]} ∪ visited_urls (scraper c)) ∨
  ((current_url ∉ visited_urls (scraper c)) ∧
   visited_urls (scraper (crawl_step web c)) =
     {[current_url]} ∪ visited_urls (scraper c) ∧
   ∃ page page_links,
     pages_data (crawl_step web c) =
       dict_set current_url page (pages_data c) ∧
     urls_to_visit (crawl_step web c) =
       enqueue (visited_urls (scraper (crawl_step web c))) page_links rest).
Proof.
  intros Hq. unfold crawl_step. rewrite Hq.
  case_bool_decide as Hvisited.
  { left. simpl. split_and!; [done|done|done|set_solver]. }
  unfold try_page, get_html_content.
  destruct (web _ current_url) as [[html_content soup]|]; simpl;
    [|left; simpl; split_and!; [done|done|done|set_solver]].
  destruct (find_images soup current_url) as [images|];
    [|left; simpl; split_and!; [done|done|set_solver|done]].
  destruct (find_navigation_links _ soup current_url)
    as [[page_links self']|] eqn:Hlinks;
    [|left; simpl; split_and!; [done|done|set_solver|done]].
  apply find_navigation_links_frame in Hlinks as [Hv _]. simpl in Hv.
  right. simpl. split_and!; [done|done|]. rewrite Hv. eauto.
Qed.

Lemma crawl_inv_step (c : Crawl) :
  crawl_inv c → crawl_inv (crawl_step web c).
Proof.
  intros [Hnd Hdisj Hpnd Hpv].
  destruct (urls_to_visit c) as [|current_url rest] eqn:Hq.
  { unfold crawl_step. rewrite Hq. constructor; by rewrite ?Hq. }
  apply NoDup_cons in Hnd as [Hcur Hnd].
  destruct (crawl_step_cases c current_url rest Hq)
    as [(Hp & Hq' & Hsub & Hsup)|(Hfresh & Hv & page & links & Hp & Hq')].
  - constructor; rewrite ?Hp, ?Hq'.
    + done.
    + intros u Hu Hin. apply Hsup in Hin.
      apply elem_of_union in Hin as [->%elem_of_singleton|Hin]; [done|].
      apply (Hdisj u); [by right|done].
    + done.
    + intros u Hu. by apply Hsub, Hpv.
  - assert (Hnew : current_url ∉ (pages_data c).*1) by (intros ?%Hpv; done).
    rewrite (dict_set_fresh _ _ _ Hnew) in Hp.
    destruct (enqueue_spec (visited_urls (scraper (crawl_step web c))) links
                rest Hnd) as (H1 & H2 & _).
    { intros u Hu. rewrite Hv. intros [->%elem_of_singleton|Hin]%elem_of_union;
        [done|]. apply (Hdisj u); [by right|done]. }
    constructor; rewrite ?Hp, ?Hq'.
    + done.
    + done.
    + rewrite fmap_app. apply NoDup_app. split_and!; [done| |apply NoDup_singleton].
      intros u Hu ->%list_elem_of_singleton. done.
    + rewrite fmap_app, Hv. intros u [Hu| ->%list_elem_of_singleton]%elem_of_app.
      * apply elem_of_union. right. by apply Hpv.
      * apply elem_of_union. left. by apply elem_of_singleton.
Qed.

Lemma crawl_inv_start (self : WebScraper) (start_url : string) :
  start_url ∉ visited_urls self → crawl_inv (mkCrawl self [] [start_url]).
Proof.
  intros Hstart. constructor; simpl.
  - apply NoDup_singleton.
  - by intros u ->%list_elem_of_singleton.
  - constructor.
  - by intros u ?%elem_of_nil.
Qed.

Lemma reachable_inv (self : WebScraper) (start_url : string) (c : Crawl) :
  start_url ∉ visited_urls self →
  reachable web max_pages self start_url c → crawl_inv c.
Proof.
  intros Hstart. induction 1 as [|c _ IH Hcond].
  - by apply crawl_inv_start.
  - by apply crawl_inv_step.
Qed.

(** The dictionary never outgrows a budget that is not negative. *)
Lemma reachable_budget (self : WebScraper) (start_url : string) (c : Crawl) :
  (0 ≤ max_pages)%Z →
  reachable web max_pages self start_url c →
  (Z.of_nat (length (pages_data c)) ≤ max_pages)%Z.
Proof.
  intros Hmax. induction 1 as [|c _ IH Hcond]; simpl; [done|].
  unfold loop_cond in Hcond.
  destruct (urls_to_visit c) as [|current_url rest] eqn:Hq; [done|].
  apply Z.ltb_lt in Hcond.
  destruct (crawl_step_cases c current_url rest Hq)
    as [(Hp & _)|(_ & _ & page & links & Hp & _)]; rewrite Hp; [lia|].
  pose proof (dict_set_length_le current_url page (pages_data c)). lia.
Qed.

(** A pass either shortens the queue and keeps the pages, or stores one
    more page. *)
Lemma crawl_step_progress (c : Crawl) :
  crawl_inv c → loop_cond max_pages c = true →
  (length (pages_data (crawl_step web c)) = length (pages_data c) ∧
   length (urls_to_visit (crawl_step web c)) < length (urls_to_visit c)) ∨
  length (pages_data (crawl_step web c)) = S (length (pages_data c)).
Proof.
  intros [Hnd Hdisj Hpnd Hpv] Hcond. unfold loop_cond in Hcond.
  destruct (urls_to_visit c) as [|current_url rest] eqn:Hq; [done|].
  destruct (crawl_step_cases c current_url rest Hq)
    as [(Hp & Hq' & _)|(Hfresh & _ & page & links & Hp & _)].
  - left. rewrite Hp, Hq'. simpl. lia.
  - right. rewrite Hp, dict_set_fresh by (intros ?%Hpv; done).
    rewrite length_app. simpl. lia.
Qed.

(** The loop ends: some number of passes brings it to a state in which
    its condition fails. *)
Lemma crawl_loop_terminates (c : Crawl) :
  crawl_inv c → ∃ fuel c', crawl_loop web max_pages fuel c = Some c'.
Proof.
  remember (Z.to_nat (max_pages - Z.of_nat (length (pages_data c)))) as budget
    eqn:Hbudget.
  revert c Hbudget.
  induction (lt_wf budget) as [budget _ IHb]. intros c Hbudget.
  remember (length (urls_to_visit c)) as len eqn:Hlen.
  revert c Hbudget Hlen.
  induction (lt_wf len) as [len _ IHq]. intros c Hbudget Hlen Hinv.
  destruct (loop_cond max_pages c) eqn:Hcond.
  - assert (Hlt : (Z.of_nat (length (pages_data c)) < max_pages)%Z).
    { unfold loop_cond in Hcond. destruct (urls_to_visit c); [done|].
      by apply Z.ltb_lt. }
    pose proof (crawl_inv_step c Hinv) as Hinv'.
    destruct (crawl_step_progress c Hinv Hcond) as [[Hp Hq]|Hp].
    + assert (Hless : length (urls_to_visit (crawl_step web c)) < len) by lia.
      destruct (IHq _ Hless (crawl_step web c)) as (fuel & c' & Hrun);
        [lia|done|done|].
      exists (S fuel), c'. simpl. by rewrite Hcond.
    + assert (Hless : Z.to_nat (max_pages -
                        Z.of_nat (length (pages_data (crawl_step web c))))
                      < budget) by lia.
      destruct (IHb _ Hless (crawl_step web c)) as (fuel & c' & Hrun);
        [done|done|].
      exists (S fuel), c'. simpl. by rewrite Hcond.
  - exists 0, c. simpl. by rewrite Hcond.
Qed.

(** The state the loop ends in is one of its reachable states. *)
Lemma crawl_loop_reachable (self : WebScraper) (start_url : string)
    (fuel : nat) (c c' : Crawl) :
  reachable web max_pages self start_url c →
  crawl_loop web max_pages fuel c = Some c' →
  reachable web max_pages self start_url c' ∧ loop_cond max_pages c' = false.
Proof.
  revert c. induction fuel as [|fuel IH]; intros c Hreach; simpl;
    destruct (loop_cond max_pages c) eqn:Hcond; try done.
  - by intros [= <-].
  - intros Hrun. apply (IH (crawl_step web c)); [|done].
    by apply reach_step.
  - by intros [= <-].
Qed.

(** C1. In every run of [crawl_website] on a new scraper, with a page
    budget that is not negative: at every pass of the loop no URL is both
    visited and queued, the dictionary has at most [max_pages] entries,
    one per URL at most, each for a visited URL; the run ends, and the
    dictionary it returns has these properties too. *)
Theorem C1_crawl_invariant (start_url : string) :
  (0 ≤ max_pages)%Z →
  (∀ c, reachable web max_pages __init__ start_url c →
        visited_urls (scraper c) ∩ list_to_set (urls_to_visit c) = ∅ ∧
        (Z.of_nat (length (pages_data c)) ≤ max_pages)%Z ∧
        NoDup (pages_data c).*1 ∧
        (∀ u, u ∈ (pages_data c).*1 → u ∈ visited_urls (scraper c))) ∧
  (∃ fuel, is_Some (crawl_website web fuel __init__ start_url max_pages)) ∧
  (∀ fuel pages self',
     crawl_website web fuel __init__ start_url max_pages = Some (pages, self') →
     (Z.of_nat (length pages) ≤ max_pages)%Z ∧
     NoDup pages.*1 ∧
     (∀ u, u ∈ pages.*1 → u ∈ visited_urls self')).
Proof.
  intros Hmax.
  assert (Hstart : start_url ∉ visited_urls __init__) by set_solver.
  assert (Hall : ∀ c, reachable web max_pages __init__ start_url c →
            visited_urls (scraper c) ∩ list_to_set (urls_to_visit c) = ∅ ∧
            (Z.of_nat (length (pages_data c)) ≤ max_pages)%Z ∧
            NoDup (pages_data c).*1 ∧
            (∀ u, u ∈ (pages_data c).*1 → u ∈ visited_urls (scraper c))).
  { intros c Hreach.
    destruct (reachable_inv _ _ c Hstart Hreach) as [Hnd Hdisj Hpnd Hpv].
    split_and!; [|by eapply reachable_budget|done|done].
    apply elem_of_equiv_empty_L. intros u [Hv Hq]%elem_of_intersection.
    apply elem_of_list_to_set in Hq. by apply (Hdisj u). }
  split_and!; [exact Hall| |].
  - destruct (crawl_loop_terminates (mkCrawl __init__ [] [start_url]))
      as (fuel & c' & Hrun); [by apply crawl_inv_start|].
    exists fuel. unfold crawl_website. rewrite Hrun. by eexists.
  - intros fuel pages self'. unfold crawl_website.
    intros (c' & Hrun & [= <- <-])%bind_Some.
    apply crawl_loop_reachable with (self := __init__) (start_url := start_url)
      in Hrun as [Hreach _]; [|constructor].
    destruct (Hall c' Hreach) as (_ & ? & ? & ?). done.
Qed.

(** A pass whose fetch fails. *)
Lemma crawl_step_fetch_failed (c : Crawl) (current_url : string)
    (rest : list string) :
  urls_to_visit c = current_url :: rest →
  current_url ∉ visited_urls (scraper c) →
  web (length (session_log (scraper c))) current_url = None →
  crawl_step web c =
    mkCrawl (mkWebScraper (visited_urls (scraper c)) (base_domain (scraper c))
               (session_log (scraper c) ++ [current_url]))
      (pages_data c) rest.
Proof.
  intros Hq Hfresh Hfail. unfold crawl_step. rewrite Hq.
  rewrite bool_decide_eq_false_2 by done.
  unfold try_page, get_html_content. by rewrite Hfail.
Qed.

(** A pass for a URL that is not visited requests it, however the pass
    ends. *)
Lemma crawl_step_request (c : Crawl) (current_url : string)
    (rest : list string) :
  urls_to_visit c = current_url :: rest →
  current_url ∉ visited_urls (scraper c) →
  session_log (scraper (crawl_step web c)) =
    session_log (scraper c) ++ [current_url].
Proof.
  intros Hq Hfresh. unfold crawl_step. rewrite Hq.
  rewrite bool_decide_eq_false_2 by done.
  unfold try_page, get_html_content.
  destruct (web _ current_url) as [[html_content soup]|]; [|done].
  destruct (find_images soup current_url) as [images|]; [|done].
  destruct (find_navigation_links _ soup current_url)
    as [[page_links self']|] eqn:Hlinks; [|done].
  apply find_navigation_links_frame in Hlinks as [_ Hl].
  cbn [scraper session_log] in *. by rewrite Hl.
Qed.

(** A pass whose [try] block runs to its end: the page is stored, and the
    queue is fed with its links. *)
Lemma crawl_step_stored (c : Crawl) (current_url : string)
    (rest : list string) (html_content : string) (soup : node)
    (images : list ImageRec) (page_links : list string) (self' : WebScraper) :
  urls_to_visit c = current_url :: rest →
  current_url ∉ visited_urls (scraper c) →
  web (length (session_log (scraper c))) current_url =
    Some (html_content, soup) →
  find_images soup current_url = Some images →
  find_navigation_links
    (mkWebScraper ({[current_url]} ∪ visited_urls (scraper c))
       (base_domain (scraper c)) (session_log (scraper c) ++ [current_url]))
    soup current_url = Some (page_links, self') →
  visited_urls (scraper (crawl_step web c)) =
    {[current_url]} ∪ visited_urls (scraper c) ∧
  urls_to_visit (crawl_step web c) =
    enqueue ({[current_url]} ∪ visited_urls (scraper c)) page_links rest ∧
  current_url ∈ (pages_data (crawl_step web c)).*1.
Proof.
  intros Hq Hfresh Hweb Himages Hlinks. unfold crawl_step. rewrite Hq.
  rewrite bool_decide_eq_false_2 by done.
  unfold try_page, get_html_content. rewrite Hweb. cbn [session_log
    visited_urls base_domain]. rewrite Himages, Hlinks.
  apply find_navigation_links_frame in Hlinks as [Hv _].
  cbn [visited_urls] in Hv. cbn [scraper urls_to_visit pages_data].
  rewrite Hv. split_and!; [done|done|].
  generalize (mkPageData
                match find soup "title" with
                | Some title_tag => Str.strip (get_text (bs4.self title_tag))
                | None => "No title"
                end html_content images (length page_links) (length images)).
  intros page. induction (pages_data c) as [|[k v] d IH]; simpl.
  - by left.
  - destruct (String.eqb_spec k current_url) as [->|_]; simpl;
      [by left|by right].
Qed.

(** A URL is visited only after a request for it was answered. *)
Lemma reachable_visited_answered (start_url : string) (c : Crawl) (u : string) :
  reachable web max_pages __init__ start_url c →
  u ∈ visited_urls (scraper c) →
  ∃ n, session_log (scraper c) !! n = Some u ∧ is_Some (web n u).
Proof.
  intros Hreach. revert u. induction Hreach as [|c _ IH Hcond]; intros u.
  - by intros ?%not_elem_of_empty.
  - unfold loop_cond in Hcond.
    destruct (urls_to_visit c) as [|current_url rest] eqn:Hq; [done|].
    assert (Hold : ∀ log', u ∈ visited_urls (scraper c) →
              ∃ n, (session_log (scraper c) ++ log') !! n = Some u ∧
                   is_Some (web n u)).
    { intros log' (n & Hn & Hweb)%IH. exists n. split; [|done].
      by apply lookup_app_l_Some. }
    unfold crawl_step. rewrite Hq.
    case_bool_decide as Hvisited; [exact (IH u)|].
    unfold try_page, get_html_content.
    destruct (web _ current_url) as [[html_content soup]|] eqn:Hweb;
      [|apply Hold].
    assert (Hnew : u ∈ {[current_url]} ∪ visited_urls (scraper c) →
              ∃ n, (session_log (scraper c) ++ [current_url]) !! n = Some u ∧
                   is_Some (web n u)).
    { intros [->%elem_of_singleton|Hin]%elem_of_union; [|by apply Hold].
      exists (length (session_log (scraper c))). split.
      - by rewrite lookup_app_r, Nat.sub_diag.
      - by rewrite Hweb. }
    destruct (find_images soup current_url) as [images|]; [|exact Hnew].
    destruct (find_navigation_links _ soup current_url)
      as [[page_links self']|] eqn:Hlinks; [|exact Hnew].
    apply find_navigation_links_frame in Hlinks as [Hv Hl].
    cbn [scraper visited_urls session_log] in *. rewrite Hv, Hl. exact Hnew.
Qed.

(** C3, amended.  A URL whose fetch fails is taken off the queue, in
    which it occurred once; it gets no entry and is not added to the
    visited set, and nothing but the log of the requests records the
    failure: all other variables of the loop and attributes of the scraper
    are as before.  The URL is not skipped for the rest of the run.  At
    every point of the run: it is visited only if a request for it was
    answered; when another page is stored that lists it among its
    navigation links while it is not visited, it is on the queue after
    that pass, still not visited; and when it is taken from the queue it
    is requested again.  Whether it is requested again in a given run
    depends on the pages stored later and on the page budget. *)
Theorem C3_failed_fetch_forgotten (start_url : string) (c : Crawl)
    (current_url : string) (rest : list string) :
  reachable web max_pages __init__ start_url c →
  urls_to_visit c = current_url :: rest →
  web (length (session_log (scraper c))) current_url = None →
  session_log (scraper (crawl_step web c)) =
    session_log (scraper c) ++ [current_url] ∧
  urls_to_visit (crawl_step web c) = rest ∧
  (current_url ∉ rest) ∧
  pages_data (crawl_step web c) = pages_data c ∧
  visited_urls (scraper (crawl_step web c)) = visited_urls (scraper c) ∧
  (current_url ∉ visited_urls (scraper (crawl_step web c))) ∧
  (∀ page_links,
     current_url ∈ page_links →
     current_url ∈ enqueue (visited_urls (scraper (crawl_step web c)))
                     page_links (urls_to_visit (crawl_step web c))) ∧
  (∀ later,
     reachable web max_pages __init__ start_url later →
     (current_url ∈ visited_urls (scraper later) →
      ∃ n, session_log (scraper later) !! n = Some current_url ∧
           is_Some (web n current_url)) ∧
     (∀ page_url waiting html_content soup images page_links self',
        urls_to_visit later = page_url :: waiting →
        web (length (session_log (scraper later))) page_url =
          Some (html_content, soup) →
        find_images soup page_url = Some images →
        find_navigation_links
          (mkWebScraper ({[page_url]} ∪ visited_urls (scraper later))
             (base_domain (scraper later))
             (session_log (scraper later) ++ [page_url]))
          soup page_url = Some (page_links, self') →
        current_url ∈ page_links →
        current_url ≠ page_url →
        current_url ∉ visited_urls (scraper later) →
        page_url ∈ (pages_data (crawl_step web later)).*1 ∧
        current_url ∈ urls_to_visit (crawl_step web later) ∧
        (current_url ∉ visited_urls (scraper (crawl_step web later)))) ∧
     (∀ waiting,
        urls_to_visit later = current_url :: waiting →
        session_log (scraper (crawl_step web later)) =
          session_log (scraper later) ++ [current_url])) ∧
  crawl_step web c =
    mkCrawl (mkWebScraper (visited_urls (scraper c)) (base_domain (scraper c))
               (session_log (scraper c) ++ [current_url]))
      (pages_data c) rest.
Proof.
  intros Hreach Hq Hfail.
  assert (Hstart : start_url ∉ visited_urls __init__) by set_solver.
  destruct (reachable_inv _ _ c Hstart Hreach) as [Hnd Hdisj _ _].
  rewrite Hq in Hnd, Hdisj. apply NoDup_cons in Hnd as [Hcur Hnd].
  assert (Hfresh : current_url ∉ visited_urls (scraper c))
    by (apply Hdisj; by left).
  rewrite (crawl_step_fetch_failed c current_url rest Hq Hfresh Hfail). simpl.
  split_and!; try done.
  - intros page_links Hin.
    apply enqueue_spec; [done| |done|done].
    intros u Hu. apply Hdisj. by right.
  - intros later Hlater.
    destruct (reachable_inv _ _ later Hstart Hlater) as [Hnd2 Hdisj2 _ _].
    split_and!.
    + by apply (reachable_visited_answered start_url).
    + intros page_url waiting html_content soup images page_links self'
        Hq2 Hweb Himages Hlinks Hin Hne Hunvisited.
      rewrite Hq2 in Hnd2, Hdisj2. apply NoDup_cons in Hnd2 as [Hpage Hnd2].
      assert (Hfresh2 : page_url ∉ visited_urls (scraper later))
        by (apply Hdisj2; by left).
      destruct (crawl_step_stored later page_url waiting html_content soup
                  images page_links self' Hq2 Hfresh2 Hweb Himages Hlinks)
        as (Hv & Hq3 & Hstored).
      assert (Hunvisited' :
        current_url ∉ {[page_url]} ∪ visited_urls (scraper later))
        by (by intros [?%elem_of_singleton|?]%elem_of_union).
      rewrite Hv, Hq3. split_and!; [done| |done].
      apply enqueue_spec; [done| |done|done].
      intros u Hu [->%elem_of_singleton|Hvis]%elem_of_union; [done|].
      by apply (Hdisj2 u); [right|].
    + intros waiting Hq2. apply (crawl_step_request later current_url waiting);
        [done|]. apply Hdisj2. rewrite Hq2. by left.
Qed.

(** A pass whose [try] block raises: only the URL is dropped. *)
Lemma crawl_step_raised (c c' : Crawl) (current_url : string)
    (rest : list string) :
  urls_to_visit c = current_url :: rest →
  current_url ∉ visited_urls (scraper c) →
  try_page web c current_url rest = Raised c' →
  crawl_step web c = c' ∧
  pages_data c' = pages_data c ∧
  urls_to_visit c' = rest.
Proof.
  intros Hq Hfresh Htry. unfold crawl_step. rewrite Hq.
  rewrite bool_decide_eq_false_2 by done. rewrite Htry.
  split; [done|]. revert Htry. unfold try_page, get_html_content.
  destruct (web _ current_url) as [[html_content soup]|];
    [|by intros [= <-]].
  destruct (find_images soup current_url) as [images|]; [|by intros [= <-]].
  destruct (find_navigation_links _ soup current_url) as [[page_links self']|];
    [done|by intros [= <-]].
Qed.

(** A [try] block that runs to its end stores an entry. *)
Lemma try_page_done (c c' : Crawl) (current_url : string) (rest : list string) :
  try_page web c current_url rest = Done c' → pages_data c' ≠ [].
Proof.
  unfold try_page, get_html_content.
  destruct (web _ current_url) as [[html_content soup]|]; [|done].
  destruct (find_images soup current_url) as [images|]; [|done].
  destruct (find_navigation_links _ soup current_url) as [[page_links self']|];
    [|done].
  intros [= <-]. simpl. intros Hnil.
  destruct (pages_data c) as [|[k v] d]; simpl in Hnil; [done|].
  by destruct (String.eqb k current_url).
Qed.

(** The dictionary never shrinks. *)
Lemma crawl_step_grows (c : Crawl) :
  length (pages_data c) ≤ length (pages_data (crawl_step web c)).
Proof.
  destruct (urls_to_visit c) as [|current_url rest] eqn:Hq.
  { unfold crawl_step. by rewrite Hq. }
  destruct (crawl_step_cases c current_url rest Hq)
    as [(Hp & _)|(_ & _ & page & links & Hp & _)]; rewrite Hp; [done|].
  apply dict_set_length.
Qed.

Lemma crawl_loop_grows (fuel : nat) (c c' : Crawl) :
  crawl_loop web max_pages fuel c = Some c' →
  length (pages_data c) ≤ length (pages_data c').
Proof.
  revert c. induction fuel as [|fuel IH]; intros c; simpl;
    destruct (loop_cond max_pages c); try done.
  - by intros [= <-].
  - intros Hrun%IH. pose proof (crawl_step_grows c). lia.
  - by intros [= <-].
Qed.

(** C9, amended.  Whatever makes the [try] block of a URL raise, a failed
    fetch or an exception while the images and links of the fetched page
    are extracted, is caught at the item boundary: the URL gets no entry,
    the entries collected are unchanged, and the loop goes on with the rest
    of the queue.  The run ends, and the dictionary it returns is empty if
    and only if the page budget is below 1 or the [try] block of the seed
    raises; a failed fetch of the seed is one such case. *)
Theorem C9_failure_isolation (start_url : string) :
  (∀ c c' current_url rest,
     urls_to_visit c = current_url :: rest →
     current_url ∉ visited_urls (scraper c) →
     try_page web c current_url rest = Raised c' →
     pages_data c' = pages_data c ∧
     urls_to_visit c' = rest ∧
     (loop_cond max_pages c = true →
      ∀ fuel, crawl_loop web max_pages (S fuel) c =
              crawl_loop web max_pages fuel c')) ∧
  (∀ c current_url rest,
     web (length (session_log (scraper c))) current_url = None →
     ∃ c', try_page web c current_url rest = Raised c') ∧
  (∃ fuel, is_Some (crawl_website web fuel __init__ start_url max_pages)) ∧
  (∀ fuel pages self',
     crawl_website web fuel __init__ start_url max_pages = Some (pages, self') →
     pages = [] ↔
     (max_pages < 1)%Z ∨
     ∃ c', try_page web (mkCrawl __init__ [] [start_url]) start_url [] =
           Raised c').
Proof.
  split_and!.
  - intros c c' current_url rest Hq Hfresh Htry.
    destruct (crawl_step_raised c c' current_url rest Hq Hfresh Htry)
      as (Hstep & Hp & Hq').
    split_and!; [done|done|]. intros Hcond fuel. simpl.
    by rewrite Hcond, Hstep.
  - intros c current_url rest Hfail. unfold try_page, get_html_content.
    rewrite Hfail. eauto.
  - destruct (crawl_loop_terminates (mkCrawl __init__ [] [start_url]))
      as (fuel & c' & Hrun); [apply crawl_inv_start; set_solver|].
    exists fuel. unfold crawl_website. rewrite Hrun. by eexists.
  - intros fuel pages self'. unfold crawl_website.
    intros (c' & Hrun & [= <- <-])%bind_Some.
    destruct (Z.ltb_spec 0 max_pages) as [Hmax|Hmax].
    + assert (Hcond :
        loop_cond max_pages (mkCrawl __init__ [] [start_url]) = true).
      { unfold loop_cond. simpl. apply Z.ltb_lt. lia. }
      destruct fuel as [|fuel]; simpl in Hrun; rewrite Hcond in Hrun; [done|].
      unfold crawl_step in Hrun. simpl in Hrun.
      rewrite bool_decide_eq_false_2 in Hrun by set_solver.
      destruct (try_page web (mkCrawl __init__ [] [start_url]) start_url [])
        as [c1|c1] eqn:Htry.
      * apply crawl_loop_grows in Hrun. apply try_page_done in Htry.
        split; [|intros [?|[? [=]]]; lia].
        intros Hnil. rewrite Hnil in Hrun. destruct (pages_data c1); [done|].
        simpl in Hrun. lia.
      * split; [by eauto|]. intros _.
        destruct (crawl_step_raised (mkCrawl __init__ [] [start_url]) c1
                    start_url []) as (_ & Hp & Hq'); [done|set_solver|done|].
        assert (Hstop : loop_cond max_pages c1 = false)
          by (unfold loop_cond; by rewrite Hq').
        destruct fuel; simpl in Hrun; rewrite Hstop in Hrun;
          injection Hrun as <-; exact Hp.
    + assert (Hcond :
        loop_cond max_pages (mkCrawl __init__ [] [start_url]) = false).
      { unfold loop_cond. simpl. apply Z.ltb_ge. lia. }
      destruct fuel; simpl in Hrun; rewrite Hcond in Hrun;
        injection Hrun as <-; simpl; split; (done || (intros; left; lia)).
Qed.

End Crawl.

Lemma C1_crawl_invariant_witness :
  (0 ≤ 5)%Z ∧
  ∃ fuel, is_Some (crawl_website web_retry fuel __init__ "https://example.com/" 5).
Proof.
  assert (Hmax : (0 ≤ 5)%Z) by lia.
  split; [exact Hmax|].
  exact (proj1 (proj2 (C1_crawl_invariant web_retry 5 "https://example.com/" Hmax))).
Defined.

(** On [web_retry] the fetch of [/f] fails in the second pass; the pages
    [/p] and [/q] fetched later list it again, and it is requested three
    times in all. *)
Lemma C3_failed_url_fetched_again :
  web_retry 1 "https://example.com/f" = None ∧
  session_log <$> (snd <$> crawl_website web_retry 20 __init__
                             "https://example.com/" 5) =
    Some ["https://example.com/"; "https://example.com/f";
          "https://example.com/p"; "https://example.com/f";
          "https://example.com/q"; "https://example.com/f"].
Proof. vm_compute. done. Qed.

Lemma C3_failed_fetch_forgotten_witness :
  urls_to_visit retry_after_seed =
    ["https://example.com/f"; "https://example.com/p"] ∧
  web_retry (length (session_log (scraper retry_after_seed)))
    "https://example.com/f" = None ∧
  urls_to_visit (crawl_step web_retry retry_after_seed) =
    ["https://example.com/p"] ∧
  ("https://example.com/f" ∉
     visited_urls (scraper (crawl_step web_retry retry_after_seed))) ∧
  "https://example.com/f" ∈
    urls_to_visit (crawl_step web_retry
                     (crawl_step web_retry retry_after_seed)).
Proof.
  assert (Hreach : reachable web_retry 5 __init__ "https://example.com/"
                     retry_after_seed).
  { apply reach_step; [apply reach_start|]. vm_compute. reflexivity. }
  assert (Hq : urls_to_visit retry_after_seed =
               ["https://example.com/f"; "https://example.com/p"])
    by (vm_compute; reflexivity).
  assert (Hfail : web_retry (length (session_log (scraper retry_after_seed)))
                    "https://example.com/f" = None)
    by (vm_compute; reflexivity).
  destruct (C3_failed_fetch_forgotten web_retry 5 "https://example.com/"
              retry_after_seed "https://example.com/f"
              ["https://example.com/p"] Hreach Hq Hfail)
    as (_ & Hrest & _ & _ & _ & Hfresh & _ & Hlater & _).
  split_and!; [exact Hq|exact Hfail|exact Hrest|exact Hfresh|].
  set (later := crawl_step web_retry retry_after_seed) in *.
  assert (Hreach' : reachable web_retry 5 __init__ "https://example.com/"
                      later).
  { apply reach_step; [exact Hreach|]. vm_compute. reflexivity. }
  destruct (Hlater later Hreach') as (_ & Hagain & _).
  set (soup := html [Tag "nav" [] [a_href "/f" "F"; a_href "/q" "Q"]]).
  destruct (find_navigation_links
              (mkWebScraper
                 ({["https://example.com/p"]} ∪ visited_urls (scraper later))
                 (base_domain (scraper later))
                 (session_log (scraper later) ++ ["https://example.com/p"]))
              soup "https://example.com/p")
    as [[page_links self']|] eqn:Hlinks; [|vm_compute in Hlinks; discriminate].
  assert (Hpage : page_links =
                  ["https://example.com/f"; "https://example.com/q"]).
  { apply (f_equal (fmap fst)) in Hlinks. vm_compute in Hlinks.
    by injection Hlinks as <-. }
  destruct (Hagain "https://example.com/p" [] "<html>" soup [] page_links self')
    as (_ & Hqueued & _);
    [by vm_compute|by vm_compute|by vm_compute|exact Hlinks| |done|exact Hfresh|
     exact Hqueued].
  rewrite Hpage. by left.
Defined.

(** With a budget of two pages the run on [web_retry] ends after [/p]
    is stored: [/f] was requested once and waits in the queue again. *)
Example retry_budget_two :
  (fun c => (session_log (scraper c), urls_to_visit c, (pages_data c).*1))
    <$> crawl_loop web_retry 2 20 (mkCrawl __init__ [] ["https://example.com/"]) =
  Some (["https://example.com/"; "https://example.com/f";
         "https://example.com/p"],
        ["https://example.com/f"; "https://example.com/q"],
        ["https://example.com/"; "https://example.com/p"]).
Proof. by vm_compute. Qed.

(** On [web_bad_src] the fetch of the seed succeeds; the [src] of its
    image makes [urljoin] raise [ValueError] inside [find_images]; the
    [except] of [crawl_website] drops the page, and the dictionary returned
    is empty though no fetch failed.  With a page budget of 0 nothing is
    requested at all, and the dictionary is empty as well. *)
Lemma C9_seed_fetched_map_empty :
  is_Some (web_bad_src 0 "https://example.com/") ∧
  find_images page_bad_src "https://example.com/" = None ∧
  crawl_website web_bad_src 20 __init__ "https://example.com/" 5 =
    Some ([], mkWebScraper {["https://example.com/"]} None
                ["https://example.com/"]) ∧
  crawl_website web_retry 20 __init__ "https://example.com/" 0 =
    Some ([], __init__).
Proof. split; [by eexists|]. split_and!; by vm_compute. Qed.

(** ** Navigation links *)

Section Links.

(** A property of every cleaned URL is a property of every link
    collected. *)
Context (P : string → Prop)
        (P_clean : ∀ absolute_url clean,
                     clean_url absolute_url = Some clean → P clean).

Lemma set_add_Forall (x : string) (links : list string) :
  P x → Forall P links → Forall P (set_add x links).
Proof.
  intros Hx Hl. unfold set_add. case_bool_decide; [done|].
  apply Forall_app. split; [done|]. by constructor.
Qed.

Lemma visit_href_Forall (base_domain base_url href : string)
    (st : list string * bool) :
  Forall P st.1 →
  Forall P (state_of (visit_href base_domain base_url st href)).1.
Proof.
  intros Hst. unfold visit_href.
  destruct (skipped_href href); [done|].
  destruct (absolute_href base_domain base_url href) as [absolute_url|];
    [|done].
  destruct (Str.startswith absolute_url base_domain); [|done].
  destruct (clean_url absolute_url) as [clean|] eqn:Hclean; [|done].
  simpl. apply set_add_Forall; [|done]. by eapply P_clean.
Qed.

Lemma visit_hrefs_Forall (base_domain base_url : string)
    (hrefs : list string) (st : list string * bool) :
  Forall P st.1 →
  Forall P (state_of (visit_hrefs base_domain base_url st hrefs)).1.
Proof.
  revert st. induction hrefs as [|href rest IH]; intros st Hst; simpl; [done|].
  pose proof (visit_href_Forall base_domain base_url href st Hst) as Hone.
  destruct (visit_href base_domain base_url st href) as [st'|st']; [|done].
  by apply IH.
Qed.

Lemma try_nav_selectors_Forall (soup : node) (base_domain base_url : string)
    (sels : list selector) (st : list string * bool) :
  Forall P st.1 →
  Forall P (try_nav_selectors soup base_domain base_url sels st).1.
Proof.
  revert st. induction sels as [|sel rest IH]; intros st Hst; simpl; [done|].
  destruct (select soup sel); [by apply IH|].
  pose proof (visit_hrefs_Forall base_domain base_url (nav_hrefs soup sel)
                st Hst) as Hsel.
  destruct (visit_hrefs _ _ _ _) as [st'|st']; simpl in Hsel.
  - destruct (snd st'); [done|by apply IH].
  - by apply IH.
Qed.

Lemma try_fallback_selectors_Forall (soup : node)
    (base_domain base_url : string) (sels : list selector)
    (links : list string) :
  Forall P links →
  Forall P (try_fallback_selectors soup base_domain base_url sels links).
Proof.
  revert links. induction sels as [|sel rest IH]; intros links Hl; simpl;
    [done|].
  pose proof (visit_hrefs_Forall base_domain base_url
                (fallback_hrefs soup sel) (links, false) Hl) as Hsel.
  destruct (visit_hrefs _ _ _ _) as [[links' found]|[links' found]];
    simpl in Hsel.
  - destruct links'; [by apply IH|done].
  - by apply IH.
Qed.

Lemma find_navigation_links_Forall (self self' : WebScraper) (soup : node)
    (base_url : string) (links : list string) :
  find_navigation_links self soup base_url = Some (links, self') →
  Forall P links.
Proof.
  unfold find_navigation_links.
  intros (self1 & _ & Hrest)%bind_Some.
  pose proof (try_nav_selectors_Forall soup
                (default EmptyString (base_domain self1)) base_url
                nav_selectors ([], false) (Forall_nil_2 P)) as Hnav.
  destruct (try_nav_selectors _ _ _ _ _) as [links0 found].
  injection Hrest as <- _. cbn [fst] in Hnav.
  destruct links0; [|done].
  exact (try_fallback_selectors_Forall soup _ base_url fallback_selectors []
           Hnav).
Qed.

End Links.

(** An [src] that starts with [http://] or [https://] is recorded as it
    is. *)
Lemma absolute_src_http (base_url src : string) :
  Str.startswith src "http://" || Str.startswith src "https://" = true →
  absolute_src base_url src = Some src.
Proof.
  intros Hhttp. unfold absolute_src. rewrite Hhttp.
  destruct src as [|a src]; [done|].
  assert (Ha : a = "h"%char).
  { simpl in Hhttp. unfold Str.eqb_ascii in Hhttp.
    by destruct (Ascii.eqb_spec a "h"). }
  by subst a.
Qed.

(** C5, amended.  The URLs that [find_navigation_links] returns are
    stripped of their fragment: none holds a [#], and two absolute URLs that
    differ in the fragment only are cleaned to one URL.  [find_images] does
    not strip fragments: it makes the [src] absolute and no more, and an
    [src] that starts with [http://] or [https://] is recorded unchanged,
    its fragment included. *)
Theorem C5_fragments_stripped_in_links (base_url : string) :
  (∀ self soup links self',
     find_navigation_links self soup base_url = Some (links, self') →
     Forall (fun link => Str.has "#" link = false) links) ∧
  (∀ u f1 f2,
     Str.has "#" u = false →
     clean_url (u +:+ String "#" f1) = clean_url (u +:+ String "#" f2)) ∧
  (∀ src,
     Str.startswith src "http://" || Str.startswith src "https://" = true →
     absolute_src base_url src = Some src).
Proof.
  split_and!.
  - intros self soup links self'.
    apply (find_navigation_links_Forall _ clean_url_no_hash).
  - intros u f1 f2 Hu. by rewrite !clean_url_fragment.
  - intros src. apply absolute_src_http.
Qed.

(** The two images of [page_fragments] differ in the fragment only, and
    [find_images] returns two URLs, fragments included. *)
Lemma C5_image_fragments_kept :
  url <$> default [] (find_images page_fragments "https://example.com/") =
    ["https://example.com/logo.png#a"; "https://example.com/logo.png#b"].
Proof. vm_compute. done. Qed.

(** C2.  With the seed [https://example.com], the link to
    [https://example.com.evil.org/login] passes the test
    [absolute_url.startswith(self.base_domain)] and is returned, though its
    host is [example.com.evil.org] and the seed's is [example.com]. *)
Theorem C2_prefix_is_not_host :
  find_navigation_links __init__ page_foreign_link "https://example.com" =
    Some (["https://example.com.evil.org/login"],
          mkWebScraper ∅ (Some "https://example.com") []) ∧
  urllib.netloc <$> urllib.urlparse "https://example.com.evil.org/login" =
    Some "example.com.evil.org" ∧
  urllib.netloc <$> urllib.urlparse "https://example.com" =
    Some "example.com".
Proof. vm_compute. done. Qed.



(** C4.  In [page_nav_header] the selector [nav] yields the in-domain link
    [/about] and then raises on the link with the unbalanced bracket; the
    [except] goes on to the later selectors with [nav_links_found] set, and
    the result also holds [/promo], which is found under [header] only. *)
Theorem C4_union_after_exception :
  visit_hrefs "https://example.com" "https://example.com/" ([], false)
    (nav_hrefs page_nav_header [ByTag "nav"]) =
    Raised (["https://example.com/about"], true) ∧
  nav_hrefs page_nav_header [ByTag "header"] = ["/promo"] ∧
  fst <$> find_navigation_links __init__ page_nav_header "https://example.com/" =
    Some ["https://example.com/about"; "https://example.com/promo"].
Proof. vm_compute. done. Qed.

(** ** Image download *)

(** When the method returns a path, it wrote one file, under that path:
    [output_dir] joined with [filename] and the extension that the content
    type and the suffix of the URL call for, in the format that goes with
    it; when it returns [None], it wrote nothing. *)
Lemma download_writes_one_file (web : ImageWeb) (files files' : list SavedFile)
    (img_url output_dir filename : string) (result : option string) :
  download_and_convert_image web files img_url output_dir filename =
    (result, files') →
  match result with
  | None => files' = files
  | Some output_path =>
      ∃ response img,
        web img_url = Some response ∧
        let '(ext, format, quality) :=
          claimed_format (default EmptyString (content_type response)) img_url in
        output_path = os_path_join output_dir (filename +:+ ext) ∧
        files' = files ++ [mkSavedFile output_path format quality img]
  end.
Proof.
  unfold download_and_convert_image, claimed_format.
  destruct (web img_url) as [response|]; [|by intros [= <- <-]].
  destruct (status_ok response); cbn [negb]; [|by intros [= <- <-]].
  destruct (opened response) as [img|]; [|by intros [= <- <-]].
  set (img' := if urllib.mem (PIL.mode img) ["RGBA"; "LA"; "P"] then img
              else if negb (String.eqb (PIL.mode img) "RGB")
                   then PIL.convert img "RGB" else img).
  destruct (urllib.mem (default EmptyString (content_type response))
              ["image/jpeg"; "image/jpg"] ||
            (Str.endswith (Str.lower img_url) ".jpg" ||
             Str.endswith (Str.lower img_url) ".jpeg")) eqn:Hjpeg.
  - cbv beta iota zeta. unfold save. destruct (PIL.can_write "JPEG" img');
      intros [= <- <-]; [|done]. exists response, img'. by rewrite Hjpeg.
  - assert (Hpng : ∀ b : bool,
              (if b
               then (os_path_join output_dir (filename +:+ ".png"), "PNG",
                     @None nat)
               else (os_path_join output_dir (filename +:+ ".png"), "PNG",
                     None)) =
              (os_path_join output_dir (filename +:+ ".png"), "PNG", None))
      by by intros [].
    rewrite Hpng. cbv beta iota zeta. unfold save.
    destruct (PIL.can_write "PNG" img'); intros [= <- <-]; [|done].
    exists response, img'. by rewrite Hjpeg.
Qed.

(** The two cases the specification names: a GIF gives a [.png] file, a
    JPEG under a name in [.jpg] a [.jpg] file written as JPEG at quality
    95. *)
Example gif_gives_png :
  download_and_convert_image web_images [] "https://example.com/anim.gif"
    "/tmp/images" "image_001_from_page_1" =
  (Some "/tmp/images/image_001_from_page_1.png",
   [mkSavedFile "/tmp/images/image_001_from_page_1.png" "PNG" None
      (PIL.mkImage "P")]).
Proof. by vm_compute. Qed.

Example jpeg_stays_jpeg :
  download_and_convert_image web_images [] "https://example.com/photo.jpg"
    "/tmp/images" "image_002_from_page_2" =
  (Some "/tmp/images/image_002_from_page_2.jpg",
   [mkSavedFile "/tmp/images/image_002_from_page_2.jpg" "JPEG" (Some 95)
      (PIL.mkImage "RGB")]).
Proof. by vm_compute. Qed.

(** C8.  A GIF behind a URL that ends in [.jpg] is downloaded and opened,
    the JPEG branch is taken with the mode left at [P], the writer refuses
    the mode, and the method returns [None] with no file written. *)
Theorem C8_palette_image_as_jpeg :
  download_and_convert_image web_palette_jpg [] "https://example.com/logo.jpg"
    "/tmp/images" "image_001_from_page_1" = (None, []).
Proof. vm_compute. done. Qed.

(** ** Numbers in file names *)

Lemma string_of_uint_digits (d : Decimal.uint) :
  Str.all is_digit (DecimalString.NilEmpty.string_of_uint d) = true.
Proof. induction d; simpl; by rewrite ?IHd. Qed.

Lemma str_of_nat_digits (n : nat) : Str.all is_digit (str_of_nat n) = true.
Proof. apply string_of_uint_digits. Qed.



Lemma zeros_digits (k : nat) : Str.all is_digit (zeros k) = true.
Proof. induction k; simpl; by rewrite ?IHk. Qed.

Lemma uint_of_string_zeros (k : nat) (s : string) :
  DecimalString.NilEmpty.uint_of_string (zeros k +:+ s) =
  Nat.iter k Decimal.D0 <$> DecimalString.NilEmpty.uint_of_string s.
Proof.
  induction k as [|k IH].
  - cbn [zeros Nat.iter]. rewrite app_empty.
    by destruct (DecimalString.NilEmpty.uint_of_string s).
  - cbn [zeros]. rewrite app_cons.
    cbn [DecimalString.NilEmpty.uint_of_string]. rewrite IH.
    by destruct (DecimalString.NilEmpty.uint_of_string s).
Qed.

Lemma format_03d_inj (n m : nat) : format_03d n = format_03d m → n = m.
Proof.
  unfold format_03d, str_of_nat. intros H.
  apply (f_equal DecimalString.NilEmpty.uint_of_string) in H.
  rewrite !uint_of_string_zeros, !DecimalString.NilEmpty.usu in H.
  simpl in H. injection H as H.
  apply (f_equal (fun d => Nat.of_uint (Decimal.unorm d))) in H.
  rewrite !DecimalFacts.unorm_iter_D0, !DecimalNat.Unsigned.of_uint_norm,
    !DecimalNat.Unsigned.of_to in H.
  done.
Qed.

Lemma format_03d_digits (n : nat) : Str.all is_digit (format_03d n) = true.
Proof.
  unfold format_03d. rewrite all_app, zeros_digits. apply str_of_nat_digits.
Qed.

(** ** Image download, once more *)

Lemma append_inj_l (p s t : string) : p +:+ s = p +:+ t → s = t.
Proof.
  induction p as [|a p IH]; [by rewrite !app_empty|].
  rewrite !app_cons. intros [= H]. by apply IH.
Qed.

Lemma append_assoc (s t u : string) : (s +:+ t) +:+ u = s +:+ (t +:+ u).
Proof.
  induction s as [|a s IH]; [by rewrite !app_empty|].
  rewrite !app_cons. by rewrite IH.
Qed.

(** Two texts that agree, each a run of digits before a character that
    is no digit, have the same run. *)
Lemma digits_app_inj (s s' t t' : string) (c c' : ascii) :
  Str.all is_digit s = true → Str.all is_digit s' = true →
  is_digit c = false → is_digit c' = false →
  s +:+ String c t = s' +:+ String c' t' → s = s'.
Proof.
  intros Hs Hs' Hc Hc'. revert s' Hs'.
  induction s as [|a s IH]; intros [|a' s'] Hs'.
  - done.
  - rewrite app_empty, app_cons. intros [= -> _].
    simpl in Hs'. by rewrite Hc in Hs'.
  - rewrite app_empty, app_cons. intros [= -> _].
    simpl in Hs. by rewrite Hc' in Hs.
  - rewrite !app_cons. intros [= -> H].
    simpl in Hs, Hs'. apply andb_prop in Hs as [_ Hs].
    apply andb_prop in Hs' as [_ Hs']. f_equal. by apply IH.
Qed.

(** The two ways a call of [download_and_convert_image] ends. *)
Lemma download_cases (web : ImageWeb) (files files' : list SavedFile)
    (img_url output_dir filename : string) (result : option string) :
  download_and_convert_image web files img_url output_dir filename =
    (result, files') →
  match result with
  | None => files' = files
  | Some output_path =>
      ∃ ext format quality img,
        output_path = os_path_join output_dir (filename +:+ ext) ∧
        files' = files ++ [mkSavedFile output_path format quality img] ∧
        ((ext = ".jpg" ∧ format = "JPEG" ∧ quality = Some 95 ∧
          PIL.mode img = "RGB") ∨
         (ext = ".png" ∧ format = "PNG" ∧ quality = None ∧
          PIL.mode img ∈ ["RGBA"; "LA"; "P"; "RGB"]))
  end.
Proof.
  unfold download_and_convert_image.
  destruct (web img_url) as [response|]; [|by intros [= <- <-]].
  destruct (status_ok response); cbn [negb]; [|by intros [= <- <-]].
  destruct (opened response) as [img|]; [|by intros [= <- <-]].
  set (img' := if urllib.mem (PIL.mode img) ["RGBA"; "LA"; "P"] then img
              else if negb (String.eqb (PIL.mode img) "RGB")
                   then PIL.convert img "RGB" else img).
  assert (Hmode : PIL.mode img' ∈ ["RGBA"; "LA"; "P"; "RGB"]).
  { unfold img'. rewrite mem_elem_of. case_bool_decide as Hkept.
    - rewrite !elem_of_cons in Hkept. rewrite !elem_of_cons. tauto.
    - destruct (String.eqb_spec (PIL.mode img) "RGB") as [Hrgb|_]; simpl;
        rewrite !elem_of_cons; tauto. }
  destruct (urllib.mem (default EmptyString (content_type response))
              ["image/jpeg"; "image/jpg"] ||
            (Str.endswith (Str.lower img_url) ".jpg" ||
             Str.endswith (Str.lower img_url) ".jpeg")).
  - cbv beta iota zeta. unfold save.
    destruct (PIL.can_write "JPEG" img') eqn:Hwrite; intros [= <- <-]; [|done].
    exists ".jpg", "JPEG", (Some 95), img'. split_and!; [done|done|].
    left. split_and!; [done|done|done|].
    change (PIL.can_write "JPEG" img')
      with (urllib.mem (PIL.mode img') PIL.jpeg_modes) in Hwrite.
    rewrite !elem_of_cons, elem_of_nil in Hmode.
    destruct Hmode as [Hm|[Hm|[Hm|[Hm|[]]]]]; [| | |done];
      by rewrite Hm in Hwrite.
  - assert (Hpng : ∀ b : bool,
              (if b
               then (os_path_join output_dir (filename +:+ ".png"), "PNG",
                     @None nat)
               else (os_path_join output_dir (filename +:+ ".png"), "PNG",
                     None)) =
              (os_path_join output_dir (filename +:+ ".png"), "PNG", None))
      by by intros [].
    rewrite Hpng. cbv beta iota zeta. unfold save.
    destruct (PIL.can_write "PNG" img'); intros [= <- <-]; [|done].
    exists ".png", "PNG", None, img'. split_and!; [done|done|].
    right. done.
Qed.

(** Joined to a name that does not start with a slash, a directory stays
    in front, followed by a separator that depends on the directory
    alone. *)
Lemma os_path_join_relative (a b : string) :
  Str.startswith b "/" = false →
  os_path_join a b =
    a +:+ (if Str.is_empty a || Str.endswith a "/" then EmptyString else "/")
      +:+ b.
Proof.
  intros Hrel. unfold os_path_join. rewrite Hrel.
  destruct (Str.is_empty a || Str.endswith a "/"); [by rewrite app_empty|done].
Qed.

Lemma image_filename_relative (i : nat) (img_data : ImageData) (ext : string) :
  Str.startswith (image_filename i img_data +:+ ext) "/" = false.
Proof. done. Qed.

(** The position can be read off the name of the file. *)
Lemma image_filename_inj (i j : nat) (d d' : ImageData) (ext ext' : string) :
  image_filename i d +:+ ext = image_filename j d' +:+ ext' → i = j.
Proof.
  unfold image_filename. rewrite !append_assoc.
  intros H%append_inj_l.
  change ("_from_page_" +:+ ?x) with (String "_" ("from_page_" +:+ x)) in H.
  apply digits_app_inj in H; [|apply format_03d_digits..|done|done].
  apply format_03d_inj in H. lia.
Qed.

Lemma image_path_inj (images_dir : string) (i j : nat) (d d' : ImageData)
    (ext ext' : string) :
  os_path_join images_dir (image_filename i d +:+ ext) =
  os_path_join images_dir (image_filename j d' +:+ ext') → i = j.
Proof.
  rewrite !os_path_join_relative by apply image_filename_relative.
  intros H. do 2 apply append_inj_l in H. by apply image_filename_inj in H.
Qed.

(** ** The image loops of [main] *)

Lemma enumerate_fst {A} (start : nat) (l : list A) :
  (enumerate start l).*1 = seq start (length l).
Proof.
  revert start. induction l as [|x l IH]; intros start; simpl; [done|].
  by rewrite IH.
Qed.


Lemma enumerate_lookup {A} (start i : nat) (x : A) (l : list A) :
  (i, x) ∈ enumerate start l → start ≤ i ∧ l !! (i - start) = Some x.
Proof.
  revert start. induction l as [|y l IH]; intros start; simpl.
  - by intros ?%elem_of_nil.
  - intros [[= -> ->]|Hin]%elem_of_cons.
    + by rewrite Nat.sub_diag.
    + apply IH in Hin as [Hle Hl]. split; [lia|].
      by replace (i - start) with (S (i - S start)) by lia.
Qed.

Lemma image_path_nonempty (images_dir : string) (i : nat) (d : ImageData)
    (ext : string) :
  Str.is_empty (os_path_join images_dir (image_filename i d +:+ ext)) = false.
Proof.
  rewrite os_path_join_relative by apply image_filename_relative.
  rewrite !is_empty_app. unfold image_filename. rewrite !is_empty_app.
  cbn [Str.is_empty]. by rewrite !andb_false_r.
Qed.

(** What the download loop adds to [processed_images] and to the files:
    for a subsequence of the entries, the entry with its path and a file
    under that path. *)
Lemma process_images_spec (webs : ImageWebs) (images_dir : string)
    (l : list ImageData) (start : nat) (processed_images : list ImageData)
    (files : list SavedFile) :
  ∃ (kept : list (nat * ImageData * string)) (new : list SavedFile),
    process_images webs images_dir (enumerate start l)
      (processed_images, files) =
      (processed_images ++
       ((fun '(i, d, ext) =>
           mkImageData (image d) (source_page d) (source_page_title d)
             (global_index d)
             (Some (os_path_join images_dir (image_filename i d +:+ ext))))
          <$> kept),
       files ++ new) ∧
    file_path <$> new =
      (fun '(i, d, ext) =>
         os_path_join images_dir (image_filename i d +:+ ext)) <$> kept ∧
    sublist kept.*1 (enumerate start l) ∧
    Forall (fun k => k.2 = ".jpg" ∨ k.2 = ".png") kept.
Proof.
  revert start processed_images files.
  induction l as [|d l IH]; intros start processed_images files.
  - exists [], []. simpl. by rewrite !app_nil_r.
  - cbn [enumerate process_images].
    destruct (download_and_convert_image (webs start) files (url (image d))
                images_dir (image_filename start d))
      as [result files1] eqn:Hload.
    apply download_cases in Hload.
    destruct result as [output_path|].
    + destruct Hload as (ext & format & quality & img & -> & -> & Hext).
      rewrite image_path_nonempty.
      destruct (IH (S start)
                  (processed_images ++
                   [mkImageData (image d) (source_page d)
                      (source_page_title d) (global_index d)
                      (Some (os_path_join images_dir
                               (image_filename start d +:+ ext)))])
                  (files ++
                   [mkSavedFile
                      (os_path_join images_dir
                         (image_filename start d +:+ ext))
                      format quality img]))
        as (kept & new & -> & Hpaths & Hsub & Hexts).
      exists ((start, d, ext) :: kept),
        (mkSavedFile
           (os_path_join images_dir (image_filename start d +:+ ext))
           format quality img :: new).
      rewrite <- !app_assoc. split_and!; [done| | |].
      * rewrite !fmap_cons. by rewrite Hpaths.
      * rewrite fmap_cons. by apply sublist_skip.
      * constructor; [|done]. cbn [snd]. tauto.
    + subst files1.
      destruct (IH (S start) processed_images files)
        as (kept & new & -> & Hpaths & Hsub & Hexts).
      exists kept, new. split_and!; [done|done| |done].
      by apply sublist_cons.
Qed.

Lemma image_filename_no_slash (i : nat) (d : ImageData) (ext : string) :
  ext = ".jpg" ∨ ext = ".png" →
  Str.has "/" (image_filename i d +:+ ext) = false.
Proof.
  intros Hext. unfold image_filename. rewrite !has_app.
  rewrite (has_all "/" is_digit _ eq_refl (format_03d_digits (i + 1))).
  rewrite (has_all "/" is_digit _ eq_refl
             (str_of_nat_digits (global_index d))).
  by destruct Hext as [-> | ->].
Qed.


(** A function that tells entries with different keys apart maps a list
    with distinct keys to distinct values. *)
Lemma NoDup_fmap_by_key {A B K} (key : A → K) (f : A → B) (l : list A) :
  (∀ x y, f x = f y → key x = key y) →
  NoDup (key <$> l) → NoDup (f <$> l).
Proof.
  intros Hkey. induction l as [|x l IH]; simpl; [constructor|].
  intros [Hx Hl]%NoDup_cons. apply NoDup_cons. split; [|by apply IH].
  intros (y & Hfy & Hy)%list_elem_of_fmap. apply Hx.
  apply list_elem_of_fmap. exists y. split; [by apply Hkey|done].
Qed.

(** The paths of the files of a subsequence of the entries differ. *)
Lemma kept_paths_NoDup (images_dir : string) (l : list ImageData) (start : nat)
    (kept : list (nat * ImageData * string)) :
  sublist kept.*1 (enumerate start l) →
  NoDup ((fun '(i, d, ext) =>
            os_path_join images_dir (image_filename i d +:+ ext)) <$> kept).
Proof.
  intros Hsub. apply (NoDup_fmap_by_key (fst ∘ fst)).
  - intros [[i d] ext] [[j d'] ext']. apply image_path_inj.
  - rewrite (list_fmap_compose fst fst).
    eapply sublist_NoDup; [|apply fmap_sublist, Hsub].
    rewrite enumerate_fst. apply NoDup_seq.
Qed.

(** No two images are written to the same path, and every file lies in
    [images_dir] itself: its path is [images_dir] joined with a name that
    holds no slash. *)
Theorem process_images_paths_distinct (webs : ImageWebs) (images_dir : string)
    (all_images : list ImageData) :
  let files :=
    (process_images webs images_dir (enumerate 0 all_images) ([], [])).2 in
  NoDup (file_path <$> files) ∧
  Forall (fun f => ∃ name, file_path f = os_path_join images_dir name ∧
                           Str.has "/" name = false) files.
Proof.
  intros files. unfold files.
  destruct (process_images_spec webs images_dir all_images 0 [] [])
    as (kept & new & -> & Hpaths & Hsub & Hexts).
  cbn [snd app]. split.
  - rewrite Hpaths. by eapply kept_paths_NoDup.
  - apply (Forall_fmap file_path
             (fun p => ∃ name, p = os_path_join images_dir name ∧
                               Str.has "/" name = false)).
    rewrite Hpaths. apply Forall_fmap, Forall_forall.
    intros [[i d] ext] Hin. simpl.
    exists (image_filename i d +:+ ext). split; [done|].
    apply image_filename_no_slash.
    rewrite Forall_forall in Hexts. apply (Hexts _ Hin).
Qed.

(** What the inner loop adds for one page: an entry per image, numbered
    on from the counter. *)
Lemma collect_page_spec (page_url page_title : string)
    (page_images : list ImageRec) (all_images : list ImageData) (counter : nat) :
  collect_page page_url page_title page_images (all_images, counter) =
    (all_images ++
     imap (fun j img =>
             mkImageData img page_url page_title (counter + j + 1) None)
       page_images,
     counter + length page_images).
Proof.
  revert all_images counter.
  induction page_images as [|img rest IH]; intros all_images counter; simpl.
  - by rewrite app_nil_r, Nat.add_0_r.
  - rewrite IH, <- app_assoc. simpl. f_equal; [|lia].
    f_equal. rewrite Nat.add_0_r. f_equal.
    apply imap_ext. intros j x _. simpl. f_equal. lia.
Qed.

(** The entries that the images of one page give. *)
Lemma collect_images_spec (pages : list (string * PageData)) (max_images : Z)
    (all_images : list ImageData) (counter : nat) :
  ∃ new,
    collect_images pages max_images (all_images, counter) =
      (all_images ++ new, counter + length new) ∧
    global_index <$> new = seq (counter + 1) (length new) ∧
    (fun d => (source_page d, source_page_title d, image d)) <$> new =
      ('(page_url, page_data) ← pages;
       (fun img => (page_url, title page_data, img))
         <$> slice_to max_images (images page_data)) ∧
    Forall (fun d => local_path d = None) new.
Proof.
  revert all_images counter.
  induction pages as [|[page_url page_data] rest IH];
    intros all_images counter.
  - exists []. simpl. rewrite app_nil_r, Nat.add_0_r. done.
  - cbn [collect_images]. rewrite collect_page_spec.
    set (page_images := slice_to max_images (images page_data)).
    set (mine := imap (fun j img =>
                         mkImageData img page_url (title page_data)
                           (counter + j + 1) None) page_images).
    destruct (IH (all_images ++ mine) (counter + length page_images))
      as (new & -> & Hidx & Hsrc & Hpath).
    assert (Hlen : length mine = length page_images)
      by (unfold mine; by rewrite length_imap).
    exists (mine ++ new). rewrite <- app_assoc, length_app, Hlen.
    split_and!.
    + f_equal. lia.
    + rewrite fmap_app, Hidx, seq_app. f_equal.
      * unfold mine. rewrite fmap_imap.
        apply list_eq. intros j. rewrite list_lookup_imap.
        destruct (page_images !! j) as [img|] eqn:Hj; simpl.
        -- apply lookup_lt_Some in Hj as Hlt.
           rewrite lookup_seq_lt by done. f_equal. lia.
        -- apply lookup_ge_None in Hj. symmetry. apply lookup_ge_None.
           by rewrite length_seq.
      * f_equal. lia.
    + rewrite fmap_app, Hsrc. cbn [mbind list_bind]. f_equal.
      unfold mine. rewrite fmap_imap.
      apply list_eq. intros j. rewrite list_lookup_imap, list_lookup_fmap.
      fold page_images. by destruct (page_images !! j).
    + apply Forall_app. split; [|done]. unfold mine.
      apply Forall_forall. intros d (j & img & -> & _)%elem_of_lookup_imap.
      done.
Qed.

(** [image_counter] numbers the collected images 1, 2, ... in the order
    of the pages and of the images in each; each page gives its first
    [max_images] images, with its URL and title. *)
Theorem collect_images_numbering (pages : list (string * PageData))
    (max_images : Z) :
  let '(all_images, image_counter) :=
    collect_images pages max_images ([], 0) in
  image_counter = length all_images ∧
  global_index <$> all_images = seq 1 (length all_images) ∧
  (fun d => (source_page d, source_page_title d, image d)) <$> all_images =
    ('(page_url, page_data) ← pages;
     (fun img => (page_url, title page_data, img))
       <$> slice_to max_images (images page_data)).
Proof.
  destruct (collect_images_spec pages max_images [] 0)
    as (new & -> & Hidx & Hsrc & _).
  simpl. done.
Qed.

Lemma list_filter_all {A} (P : A → Prop) `{∀ x, Decision (P x)} (l : list A) :
  Forall P l → filter P l = l.
Proof.
  induction 1 as [|x l Hx _ IH]; [done|].
  by rewrite filter_cons_True, IH.
Qed.

Lemma list_filter_none {A} (P : A → Prop) `{∀ x, Decision (P x)} (l : list A) :
  Forall (fun x => ¬ P x) l → filter P l = [].
Proof.
  induction 1 as [|x l Hx _ IH]; [done|].
  by rewrite filter_cons_False, IH.
Qed.

(** Of what the pages of a dictionary give, the part that carries the key
    of one page is what that page gave. *)
Lemma bind_filter_key {A B} (pages : list (string * A))
    (g : string → A → list B) (key : B → string) (u : string) (a : A) :
  (∀ u' a' b, b ∈ g u' a' → key b = u') →
  NoDup pages.*1 → (u, a) ∈ pages →
  filter (fun b => key b = u) (pages ≫= fun '(u', a') => g u' a') = g u a.
Proof.
  intros Hkey. induction pages as [|[u' a'] rest IH].
  - by intros _ ?%elem_of_nil.
  - rewrite fmap_cons, bind_cons.
    intros [Hfresh Hnd]%NoDup_cons Hin. rewrite list.filter_app.
    apply elem_of_cons in Hin as [[= <- <-]|Hin].
    + rewrite list_filter_all
        by (apply Forall_forall; intros b Hb; by apply (Hkey u a)).
      rewrite list_filter_none; [by rewrite app_nil_r|].
      apply Forall_forall.
      intros b ([u' a'] & Hb & Hin)%list_elem_of_bind Hu.
      apply Hkey in Hb. subst u'. apply Hfresh.
      apply list_elem_of_fmap. exists (key b, a'). split; [by rewrite <- Hu|done].
    + rewrite IH by done.
      rewrite list_filter_none; [done|].
      apply Forall_forall.
      intros b Hb Hu. apply Hkey in Hb. subst u'. apply Hfresh.
      apply list_elem_of_fmap. by exists (u, a).
Qed.

Lemma filter_fmap_pre {A B} (f : A → B) (P : B → Prop)
    `{∀ y, Decision (P y)} (l : list A) :
  filter P (f <$> l) = f <$> filter (fun x => P (f x)) l.
Proof.
  induction l as [|x l IH]; [done|].
  rewrite fmap_cons, !filter_cons, IH. by destruct (decide (P (f x))).
Qed.

(** With a limit that is not negative, the images collected for a page
    are the first [max_images] images of that page, in their order. *)
Theorem collect_images_per_page (pages : list (string * PageData))
    (max_images : Z) (page_url : string) (page_data : PageData) :
  (0 ≤ max_images)%Z →
  NoDup pages.*1 →
  (page_url, page_data) ∈ pages →
  image <$> filter (fun d => source_page d = page_url)
              (collect_images pages max_images ([], 0)).1 =
    take (Z.to_nat max_images) (images page_data) ∧
  length (filter (fun d => source_page d = page_url)
            (collect_images pages max_images ([], 0)).1) ≤ Z.to_nat max_images.
Proof.
  intros Hmax Hnd Hin.
  destruct (collect_images_spec pages max_images [] 0)
    as (new & -> & _ & Hsrc & _).
  cbn [fst app].
  assert (Hfilter :
    image <$> filter (fun d => source_page d = page_url) new =
    take (Z.to_nat max_images) (images page_data)).
  { transitivity
      (snd <$> filter (fun t : string * string * ImageRec => t.1.1 = page_url)
                 ((fun d => (source_page d, source_page_title d, image d))
                    <$> new)).
    - rewrite filter_fmap_pre, <- list_fmap_compose. done.
    - rewrite Hsrc.
      rewrite (bind_filter_key pages
                 (fun u p => (fun img => (u, title p, img))
                               <$> slice_to max_images (images p))
                 (fun t => t.1.1) page_url page_data); [| |done|done].
      + rewrite <- list_fmap_compose. unfold slice_to.
        rewrite (proj2 (Z.leb_le 0 max_images) Hmax).
        apply list_fmap_id.
      + by intros u' a' b (img & -> & _)%list_elem_of_fmap. }
  split; [done|].
  rewrite <- (length_fmap image), Hfilter, length_take. lia.
Qed.

(** ** The crawl, once more *)


(** Storing under a key keeps the first key of a dictionary that is not
    empty. *)
Lemma dict_set_head {V} (key : string) (value : V) (d : list (string * V)) :
  d ≠ [] → head (dict_set key value d).*1 = head d.*1.
Proof.
  destruct d as [|[k v] d]; [done|]. intros _. simpl.
  by destruct (String.eqb k key).
Qed.

(** What [find_navigation_links] leaves in [base_domain]: what was there,
    or, when nothing was, the scheme and host of the page. *)
Lemma find_navigation_links_base_domain (self self' : WebScraper) (soup : node)
    (base_url : string) (links : list string) :
  find_navigation_links self soup base_url = Some (links, self') →
  if from_option Str.is_empty true (base_domain self)
  then ∃ parsed_url,
         urllib.urlparse base_url = Some parsed_url ∧
         base_domain self' =
           Some (urllib.scheme parsed_url +:+ "://" +:+
                 urllib.netloc parsed_url)
  else base_domain self' = base_domain self.
Proof.
  unfold find_navigation_links.
  intros (self1 & Hself1 & Hrest)%bind_Some.
  destruct (try_nav_selectors _ _ _ _ _) as [links0 found].
  injection Hrest as _ <-.
  destruct (from_option Str.is_empty true (base_domain self)).
  - apply bind_Some in Hself1 as (parsed_url & Hparse & [= <-]). eauto.
  - by injection Hself1 as <-.
Qed.

Section Run.

Context (web : Web) (max_pages : Z) (self : WebScraper) (start_url : string).

(** Until the seed is stored, nothing is, and only the seed can be
    waiting. *)
Lemma reachable_seed (c : Crawl) :
  reachable web max_pages self start_url c →
  (pages_data c = [] ∧
   (urls_to_visit c = [start_url] ∨ urls_to_visit c = [])) ∨
  head (pages_data c).*1 = Some start_url.
Proof.
  induction 1 as [|c _ IH Hcond]; [left; by eauto|].
  unfold loop_cond in Hcond.
  destruct (urls_to_visit c) as [|current_url rest] eqn:Hq; [done|].
  destruct (crawl_step_cases web c current_url rest Hq)
    as [(Hp & Hq' & _)|(_ & _ & page & links & Hp & _)].
  - rewrite Hp, Hq'. destruct IH as [[Hnil [[= _ <-]|[=]]]|Hhead]; eauto.
  - rewrite Hp. right. destruct IH as [[Hnil [[= <- _]|[=]]]|Hhead].
    + by rewrite Hnil.
    + rewrite dict_set_head; [done|]. by destruct (pages_data c).
Qed.

(** The seed comes first: in a dictionary that is not empty, the first
    key is [start_url]. *)
Theorem crawl_seed_first (fuel : nat) (pages : list (string * PageData))
    (self' : WebScraper) :
  crawl_website web fuel self start_url max_pages = Some (pages, self') →
  pages = [] ∨ head pages.*1 = Some start_url.
Proof.
  unfold crawl_website. intros (c' & Hrun & [= <- <-])%bind_Some.
  apply crawl_loop_reachable with (self := self) (start_url := start_url)
    in Hrun as [Hreach _]; [|constructor].
  destruct (reachable_seed c' Hreach) as [[Hnil _]|Hhead]; eauto.
Qed.

(** [base_domain] is set once: for a run on a new scraper it is unset
    until the links of the seed are read, and from then on it is the
    scheme and host of the seed, whatever page is read. *)
Theorem crawl_base_domain_fixed (c : Crawl) :
  reachable web max_pages __init__ start_url c →
  base_domain (scraper c) = None ∨
  ∃ parsed_url,
    urllib.urlparse start_url = Some parsed_url ∧
    base_domain (scraper c) =
      Some (urllib.scheme parsed_url +:+ "://" +:+ urllib.netloc parsed_url).
Proof.
  intros Hreach.
  assert (Hinv :
    (base_domain (scraper c) = None ∧
     (urls_to_visit c = [start_url] ∨ urls_to_visit c = [])) ∨
    ∃ parsed_url,
      urllib.urlparse start_url = Some parsed_url ∧
      base_domain (scraper c) =
        Some (urllib.scheme parsed_url +:+ "://" +:+
              urllib.netloc parsed_url)).
  { induction Hreach as [|c _ IH Hcond]; [left; by eauto|].
    unfold loop_cond in Hcond.
    destruct (urls_to_visit c) as [|current_url rest] eqn:Hq; [done|].
    unfold crawl_step. rewrite Hq.
    case_bool_decide as Hvisited; cbn [scraper urls_to_visit].
    { destruct IH as [[Hnone [[= _ <-]|[=]]]|Hset]; eauto. }
    unfold try_page, get_html_content.
    destruct (web _ current_url) as [[html_content soup]|];
      cbn [scraper urls_to_visit base_domain];
      [|destruct IH as [[Hnone [[= _ <-]|[=]]]|Hset]; eauto].
    destruct (find_images soup current_url) as [images|];
      cbn [scraper urls_to_visit base_domain];
      [|destruct IH as [[Hnone [[= _ <-]|[=]]]|Hset]; eauto].
    destruct (find_navigation_links _ soup current_url)
      as [[page_links self1]|] eqn:Hlinks;
      cbn [scraper urls_to_visit base_domain];
      [|destruct IH as [[Hnone [[= _ <-]|[=]]]|Hset]; eauto].
    apply find_navigation_links_base_domain in Hlinks.
    cbn [base_domain] in Hlinks. right.
    destruct IH as [[Hnone [[= <- _]|[=]]]|(parsed_url & Hparse & Hset)].
    - rewrite Hnone in Hlinks. exact Hlinks.
    - rewrite Hset in Hlinks. cbn [from_option] in Hlinks.
      rewrite !is_empty_app, andb_false_r in Hlinks. cbn [andb] in Hlinks.
      rewrite Hlinks. eauto. }
  destruct Hinv as [[Hnone _]|Hset]; eauto.
Qed.

End Run.

Section Requests.

Context (web : Web) (max_pages : Z).

(** A pass of the loop makes one request at most, for the URL it took
    from the queue, and none for a URL that is visited; so every visited
    URL of a run was requested. *)
Theorem crawl_requests_unvisited (start_url : string) (c : Crawl) :
  reachable web max_pages __init__ start_url c →
  (session_log (scraper (crawl_step web c)) = session_log (scraper c) ∨
   ∃ current_url rest,
     urls_to_visit c = current_url :: rest ∧
     (current_url ∉ visited_urls (scraper c)) ∧
     session_log (scraper (crawl_step web c)) =
       session_log (scraper c) ++ [current_url]) ∧
  (∀ u, u ∈ visited_urls (scraper c) → u ∈ session_log (scraper c)) ∧
  length (pages_data c) ≤ length (session_log (scraper c)).
Proof.
  assert (Hstep : ∀ c,
    (session_log (scraper (crawl_step web c)) = session_log (scraper c) ∧
     visited_urls (scraper (crawl_step web c)) = visited_urls (scraper c) ∧
     pages_data (crawl_step web c) = pages_data c) ∨
    ∃ current_url rest,
      urls_to_visit c = current_url :: rest ∧
      (current_url ∉ visited_urls (scraper c)) ∧
      session_log (scraper (crawl_step web c)) =
        session_log (scraper c) ++ [current_url] ∧
      visited_urls (scraper (crawl_step web c)) ⊆
        {[current_url]} ∪ visited_urls (scraper c) ∧
      length (pages_data (crawl_step web c)) ≤ S (length (pages_data c))).
  { clear c. intros c. unfold crawl_step.
    destruct (urls_to_visit c) as [|current_url rest] eqn:Hq; [by left|].
    case_bool_decide as Hvisited; [by left|].
    right. exists current_url, rest. split_and!; [done|done|..];
      unfold try_page, get_html_content;
      destruct (web _ current_url) as [[html_content soup]|];
        cbn [scraper session_log visited_urls pages_data];
        try done; try set_solver; try lia;
      (destruct (find_images soup current_url) as [images|];
        cbn [scraper session_log visited_urls pages_data];
        try done; try lia);
      (destruct (find_navigation_links _ soup current_url)
         as [[page_links self1]|] eqn:Hlinks;
        cbn [scraper session_log visited_urls pages_data];
        try done; try lia);
      try (apply find_navigation_links_frame in Hlinks as [Hv Hl];
           cbn [visited_urls session_log] in Hv, Hl);
      try (by rewrite Hl); try (by rewrite Hv);
      try apply dict_set_length_le. }
  intros Hreach. split.
  { destruct (Hstep c) as [(Hl & _)|(u & rest & Hq & Hu & Hl & _)]; eauto 8. }
  induction Hreach as [|c _ IH Hcond].
  - split; [set_solver|simpl; lia].
  - destruct IH as [IHv IHp].
    destruct (Hstep c) as [(Hl & Hv & Hp)|(u & rest & Hq & Hu & Hl & Hv & Hp)].
    + rewrite Hl, Hv, Hp. done.
    + rewrite Hl. split.
      * intros v Hin. apply Hv in Hin. apply elem_of_app.
        apply elem_of_union in Hin as [->%elem_of_singleton|Hin].
        -- right. by apply list_elem_of_singleton.
        -- left. by apply IHv.
      * rewrite length_app. simpl. lia.
Qed.

End Requests.

(** ** [main] *)


(** The result of the loop does not depend on the fuel it was given. *)
Lemma crawl_loop_fuel (web : Web) (max_pages : Z) (fuel fuel' : nat)
    (c r r' : Crawl) :
  crawl_loop web max_pages fuel c = Some r →
  crawl_loop web max_pages fuel' c = Some r' → r = r'.
Proof.
  revert fuel' c. induction fuel as [|fuel IH]; intros fuel' c; simpl;
    destruct fuel' as [|fuel']; simpl;
    destruct (loop_cond max_pages c); try done; try congruence.
  apply IH.
Qed.

(** The number of entries a dictionary gives when each page gives at most
    [n]. *)
Lemma length_bind_le {A B} (f : A → list B) (n : nat) (l : list A) :
  (∀ x, length (f x) ≤ n) → length (l ≫= f) ≤ length l * n.
Proof.
  intros Hf. induction l as [|x l IH]; [done|].
  rewrite bind_cons, length_app. pose proof (Hf x). simpl. lia.
Qed.

Section Main.

Context (web : Web) (webs : ImageWebs) (temp_dir : option string).

(** A press of the button ends, with an error or with the data stored,
    and in one way only, whatever fuel the crawl is given beyond what it
    needs; without a URL nothing is crawled. *)
Theorem main_ends (url : string) (max_pages max_images : Z) :
  (∃ fuel, is_Some (main web webs temp_dir fuel url max_pages max_images)) ∧
  (∀ fuel fuel' r r',
     main web webs temp_dir fuel url max_pages max_images = Some r →
     main web webs temp_dir fuel' url max_pages max_images = Some r' →
     r = r') ∧
  (∀ fuel,
     main web webs temp_dir fuel EmptyString max_pages max_images =
       Some (error "Please enter a valid URL")).
Proof.
  split_and!.
  - unfold main. destruct (Str.is_empty url); [exists 0; by eexists|].
    destruct (crawl_loop_terminates web max_pages
                (mkCrawl __init__ [] [with_scheme url]))
      as (fuel & c' & Hrun); [apply crawl_inv_start; set_solver|].
    exists fuel. unfold crawl_website. rewrite Hrun. cbn [mbind option_bind].
    destruct (pages_data c'); [by eexists|].
    destruct temp_dir; [|by eexists].
    destruct (collect_images _ _ _), (process_images _ _ _ _). by eexists.
  - intros fuel fuel' r r'. unfold main.
    destruct (Str.is_empty url); [congruence|].
    unfold crawl_website.
    destruct (crawl_loop web max_pages fuel _) as [c|] eqn:Hc; [|done].
    destruct (crawl_loop web max_pages fuel' _) as [c'|] eqn:Hc'; [|done].
    rewrite (crawl_loop_fuel _ _ _ _ _ _ _ Hc Hc'). congruence.
  - done.
Qed.

(** When the data is stored, the crawl has given a page at least, and no
    more pages than [max_pages]; the first page is the seed, with its
    scheme; no page is stored twice; the totals stored are the numbers of
    pages and of images. *)
Theorem main_stored_pages (fuel : nat) (url : string) (max_pages max_images : Z)
    (data : session_state.scraped_data) (files : list SavedFile) :
  main web webs temp_dir fuel url max_pages max_images =
    Some (stored data files) →
  session_state.url data = with_scheme url ∧
  head (session_state.pages_data data).*1 = Some (with_scheme url) ∧
  NoDup (session_state.pages_data data).*1 ∧
  session_state.total_pages data = length (session_state.pages_data data) ∧
  1 ≤ session_state.total_pages data ∧
  (Z.of_nat (session_state.total_pages data) ≤ max_pages)%Z ∧
  session_state.total_images data = length (session_state.all_images data).
Proof.
  unfold main. destruct (Str.is_empty url); [done|].
  destruct (crawl_website web fuel __init__ (with_scheme url) max_pages)
    as [[pages scraper1]|] eqn:Hcrawl; [|done].
  cbn [mbind option_bind].
  destruct pages as [|page rest] eqn:Hpages; [done|]. rewrite <- Hpages.
  destruct temp_dir as [dir|]; [|done].
  destruct (collect_images _ _ _) as [all_images counter].
  destruct (process_images _ _ _ _) as [processed_images files1].
  intros [= <- _]. cbn.
  unfold crawl_website in Hcrawl.
  apply bind_Some in Hcrawl as (c' & Hrun & [= Hp _]).
  assert (Hmax : (0 < max_pages)%Z).
  { destruct (Z.ltb_spec 0 max_pages) as [|Hle]; [done|].
    assert (Hcond : loop_cond max_pages
                      (mkCrawl __init__ [] [with_scheme url]) = false).
    { unfold loop_cond. simpl. apply Z.ltb_ge. lia. }
    destruct fuel; simpl in Hrun; rewrite Hcond in Hrun;
      injection Hrun as <-; simpl in Hp; congruence. }
  apply crawl_loop_reachable
    with (self := __init__) (start_url := with_scheme url)
    in Hrun as [Hreach _]; [|constructor].
  pose proof (reachable_budget web max_pages _ _ _ (Z.lt_le_incl _ _ Hmax)
                Hreach) as Hbudget.
  destruct (reachable_inv web max_pages _ _ _
              (not_elem_of_empty (with_scheme url)) Hreach)
    as [_ _ Hnd _].
  pose proof (reachable_seed web max_pages _ _ _ Hreach) as Hfirst.
  rewrite Hp in Hbudget, Hnd, Hfirst. rewrite Hpages.
  split_and!; [done| |done|done| |done|done].
  - destruct Hfirst as [[Hnil _]|Hhead]; [|done]. congruence.
  - simpl. lia.
Qed.

(** When the data is stored: every image listed has its file, and the
    files written are those of the images listed, in their order; no two
    files have the same path; each file lies in the directory [images] of
    the temporary directory, under the name [image_], its number in three
    digits or more, [_from_page_], the same number again, and [.jpg] or
    [.png]; with a limit that is not negative there are no more images
    than [max_images] per page. *)
Theorem main_stored_images (fuel : nat) (url : string)
    (max_pages max_images : Z) (data : session_state.scraped_data)
    (files : list SavedFile) :
  main web webs temp_dir fuel url max_pages max_images =
    Some (stored data files) →
  (∃ dir, temp_dir = Some dir ∧
          session_state.images_dir data = os_path_join dir "images") ∧
  local_path <$> session_state.all_images data =
    Some <$> (file_path <$> files) ∧
  NoDup (file_path <$> files) ∧
  Forall (fun f =>
            ∃ k ext,
              1 ≤ k ∧ (ext = ".jpg" ∨ ext = ".png") ∧
              file_path f =
                os_path_join (session_state.images_dir data)
                  ("image_" +:+ format_03d k +:+ "_from_page_" +:+
                   str_of_nat k +:+ ext))
    files ∧
  ((0 ≤ max_images)%Z →
   session_state.total_images data ≤
     session_state.total_pages data * Z.to_nat max_images).
Proof.
  unfold main. destruct (Str.is_empty url); [done|].
  destruct (crawl_website web fuel __init__ (with_scheme url) max_pages)
    as [[pages scraper1]|]; [|done].
  cbn [mbind option_bind].
  destruct pages as [|page rest] eqn:Hpages; [done|]. rewrite <- Hpages.
  clear Hpages page rest.
  destruct temp_dir as [dir|]; [|done].
  destruct (collect_images_spec pages max_images [] 0)
    as (all_images & -> & Hidx & Hsrc & _).
  cbn [app].
  destruct (process_images_spec webs (os_path_join dir "images") all_images
              0 [] [])
    as (kept & new & -> & Hpaths & Hsub & Hexts).
  cbn [app]. intros [= <- <-]. cbn.
  split_and!.
  - by eauto.
  - rewrite Hpaths, <- !list_fmap_compose. apply list_fmap_ext.
    by intros _ [[i d] ext] _.
  - rewrite Hpaths. by eapply kept_paths_NoDup.
  - apply (Forall_fmap file_path
             (fun p => ∃ k ext,
                1 ≤ k ∧ (ext = ".jpg" ∨ ext = ".png") ∧
                p = os_path_join (os_path_join dir "images")
                      ("image_" +:+ format_03d k +:+ "_from_page_" +:+
                       str_of_nat k +:+ ext))).
    rewrite Hpaths. apply Forall_fmap, Forall_forall.
    intros [[i d] ext] Hin. cbn.
    exists (i + 1), ext.
    assert (Hd : (i, d) ∈ enumerate 0 all_images).
    { eapply sublist_subseteq; [exact Hsub|].
      apply list_elem_of_fmap. by exists (i, d, ext). }
    apply enumerate_lookup in Hd as [_ Hd]. rewrite Nat.sub_0_r in Hd.
    assert (Hk : global_index d = i + 1).
    { apply (f_equal (fun l => l !! i)) in Hidx.
      rewrite list_lookup_fmap, Hd in Hidx. simpl in Hidx.
      apply lookup_lt_Some in Hd as Hlt.
      rewrite lookup_seq_lt in Hidx by done. injection Hidx as ->. lia. }
    split_and!; [lia| |].
    + rewrite Forall_forall in Hexts. apply (Hexts _ Hin).
    + unfold image_filename. rewrite Hk. by rewrite !append_assoc.
  - intros Hmax. rewrite length_fmap.
    apply sublist_length in Hsub. rewrite !length_fmap in Hsub.
    assert (Hlen : length (enumerate 0 all_images) = length all_images).
    { rewrite <- (length_fmap fst), enumerate_fst. apply length_seq. }
    apply (f_equal length) in Hsrc. rewrite length_fmap in Hsrc.
    pose proof (length_bind_le
                  (fun '(page_url, page_data) =>
                     (fun img : ImageRec => (page_url, title page_data, img))
                       <$> slice_to max_images (images page_data))
                  (Z.to_nat max_images) pages) as Hbound.
    rewrite <- Hsrc in Hbound. rewrite Hlen in Hsub.
    etrans; [exact Hsub|]. apply Hbound.
    intros [page_url page_data]. rewrite length_fmap. unfold slice_to.
    rewrite (proj2 (Z.leb_le 0 max_images) Hmax), length_take. lia.
Qed.

End Main.

(** ** [create_download_zip] *)

Lemma re_sub_unsafe_app (s t : string) :
  re_sub_unsafe (s +:+ t) = re_sub_unsafe s +:+ re_sub_unsafe t.
Proof.
  induction s as [|a s IH]; [by rewrite !app_empty|].
  rewrite app_cons. cbn [re_sub_unsafe]. by rewrite IH, app_cons.
Qed.

Lemma re_sub_unsafe_digits (s : string) :
  Str.all is_digit s = true → re_sub_unsafe s = s.
Proof.
  induction s as [|a s IH]; [done|]. cbn [Str.all re_sub_unsafe].
  intros [Ha Hs]%andb_prop. rewrite (IH Hs). f_equal.
  destruct (existsb (Ascii.eqb a) unsafe_chars) eqn:Hunsafe; [|done].
  apply existsb_exists in Hunsafe as (c & Hc & ->%Ascii.eqb_eq).
  cbn in Hc. by repeat destruct Hc as [<-|Hc].
Qed.

(** None of the nine characters is left in a text that went through
    [re.sub]. *)
Lemma re_sub_unsafe_has (c : ascii) (s : string) :
  c ∈ unsafe_chars → Str.has c (re_sub_unsafe s) = false.
Proof.
  intros Hc. induction s as [|a s IH]; [done|].
  cbn [re_sub_unsafe Str.has]. rewrite IH, orb_false_r.
  unfold Str.eqb_ascii.
  destruct (existsb (Ascii.eqb a) unsafe_chars) eqn:Hunsafe.
  - apply Ascii.eqb_neq. intros <-. unfold unsafe_chars in Hc.
    rewrite !elem_of_cons, elem_of_nil in Hc. by repeat destruct Hc as [Hc|Hc].
  - apply Ascii.eqb_neq. intros ->.
    apply not_true_iff_false in Hunsafe. apply Hunsafe.
    apply existsb_exists. exists c. split; [|apply Ascii.eqb_refl].
    by apply list_elem_of_In.
Qed.

(** A text without the separator is one part. *)
Lemma split_absent (c : ascii) (s : string) :
  Str.has c s = false → Str.split c s = [s].
Proof.
  induction s as [|a s IH]; [done|]. cbn [Str.has Str.split].
  intros [Ha Hs]%orb_false_elim. by rewrite Ha, (IH Hs).
Qed.

(** The name of a page in the archive holds none of the nine characters,
    whatever the title of the page; so the page lies in [pages] itself. *)
Theorem page_filename_safe (i : nat) (page_data : PageData) :
  Forall (fun c => Str.has c (page_filename i page_data) = false)
    unsafe_chars ∧
  Str.split "/" ("pages/" +:+ page_filename i page_data) =
    ["pages"; page_filename i page_data].
Proof.
  assert (Hsafe :
    Forall (fun c => Str.has c (page_filename i page_data) = false)
      unsafe_chars).
  { apply Forall_forall. intros c Hc. by apply re_sub_unsafe_has. }
  split; [done|].
  assert (Hslash : Str.has "/" (page_filename i page_data) = false).
  { rewrite Forall_forall in Hsafe. apply Hsafe. unfold unsafe_chars.
    rewrite !elem_of_cons. tauto. }
  change ("pages/" +:+ ?x)
    with (String "p" (String "a" (String "g" (String "e" (String "s"
            (String "/" x)))))).
  cbn [Str.split Str.eqb_ascii Ascii.eqb Bool.eqb].
  by rewrite (split_absent _ _ Hslash).
Qed.

(** The position of a page can be read off its name. *)
Lemma page_filename_inj (i j : nat) (p q : PageData) :
  page_filename i p = page_filename j q → i = j.
Proof.
  unfold page_filename. rewrite !re_sub_unsafe_app.
  rewrite !(re_sub_unsafe_digits (format_03d _)) by apply format_03d_digits.
  change (re_sub_unsafe "page_") with "page_".
  change (re_sub_unsafe "_") with "_".
  intros H%append_inj_l.
  change ("_" +:+ ?x) with (String "_" x) in H.
  apply digits_app_inj in H; [|apply format_03d_digits..|done|done].
  apply format_03d_inj in H. lia.
Qed.

Lemma zip_pages_arcnames (pages : list (string * PageData)) :
  arcname_of <$> zip_pages pages =
  (fun '(i, (_, page_data)) => "pages/" +:+ page_filename i page_data)
    <$> enumerate 0 pages.
Proof.
  unfold zip_pages. rewrite <- list_fmap_compose. apply list_fmap_ext.
  by intros _ [i [page_url page_data]] _.
Qed.

Lemma zip_images_arcnames (walk : list (string * list string)) :
  arcname_of <$> zip_images walk =
  os_path_join "images" <$> (walk ≫= snd).
Proof.
  unfold zip_images. induction walk as [|[root files] walk IH]; [done|].
  rewrite !bind_cons, !fmap_app, IH. f_equal. cbn [snd].
  clear IH. induction files as [|file files IH]; [done|].
  rewrite bind_cons, !fmap_app, IH. done.
Qed.

(** No two entries of the archive have the same name, when the files
    under the image directory have different names, none starting with a
    slash: the pages are told apart by their numbers, and pages, images and
    summary by their first letters. *)
Theorem create_download_zip_names (walk : option (list (string * list string)))
    (date : string) (pages_data : list (string * PageData))
    (base_url : string) :
  let files := default [] walk ≫= snd in
  NoDup files →
  Forall (fun file => Str.startswith file "/" = false) files →
  NoDup (arcname_of <$> create_download_zip walk date pages_data base_url).
Proof.
  intros files Hnd Hrel. unfold create_download_zip.
  rewrite !fmap_app, zip_pages_arcnames.
  assert (Himages : arcname_of <$> from_option zip_images [] walk =
                    (fun file => "images/" +:+ file) <$> files).
  { unfold files. destruct walk as [walk|]; [|done]. cbn [from_option default].
    rewrite zip_images_arcnames. apply Forall_fmap_ext_1.
    eapply Forall_impl; [exact Hrel|]. intros file Hfile.
    by rewrite os_path_join_relative. }
  rewrite Himages. apply NoDup_app. split_and!.
  - apply (NoDup_fmap_by_key fst).
    + intros [i [u p]] [j [v q]] H%append_inj_l. by apply page_filename_inj in H.
    + rewrite enumerate_fst. apply NoDup_seq.
  - intros name ([i [u p]] & -> & _)%list_elem_of_fmap.
    intros [(file & Hname & _)%list_elem_of_fmap|Hname%list_elem_of_singleton]
             %elem_of_app; discriminate Hname.
  - apply NoDup_app. split_and!.
    + apply NoDup_fmap_2; [|done]. intros x y. apply append_inj_l.
    + intros name (file & -> & _)%list_elem_of_fmap
        Hname%list_elem_of_singleton. discriminate Hname.
    + apply NoDup_singleton.
Qed.

(** ** The image grid *)

(** The cells of one row. *)
Lemma grid_row (total_images row_start : nat) :
  (seq 0 images_per_row ≫= fun col_idx =>
     let img_idx := row_start + col_idx in
     if img_idx <? total_images then [(col_idx, img_idx)] else []) =
  (fun col_idx => (col_idx, row_start + col_idx))
    <$> seq 0 (Nat.min images_per_row (total_images - row_start)).
Proof.
  unfold images_per_row. cbn [seq mbind list_bind app].
  destruct (Nat.ltb_spec (row_start + 0) total_images),
           (Nat.ltb_spec (row_start + 1) total_images),
           (Nat.ltb_spec (row_start + 2) total_images); try lia.
  - by replace (Nat.min 3 (total_images - row_start)) with 3 by lia.
  - by replace (Nat.min 3 (total_images - row_start)) with 2 by lia.
  - by replace (Nat.min 3 (total_images - row_start)) with 1 by lia.
  - by replace (Nat.min 3 (total_images - row_start)) with 0 by lia.
Qed.

(** The cells of the first [rows] rows. *)
Lemma grid_rows (total_images rows : nat) :
  ((fun k => k * images_per_row) <$> seq 0 rows) ≫=
    (fun row_start =>
       seq 0 images_per_row ≫= fun col_idx =>
         let img_idx := row_start + col_idx in
         if img_idx <? total_images then [(col_idx, img_idx)] else []) =
  (fun img_idx => (img_idx mod images_per_row, img_idx))
    <$> seq 0 (Nat.min (rows * images_per_row) total_images).
Proof.
  induction rows as [|rows IH]; [done|].
  rewrite seq_S, fmap_app, bind_app, IH. cbn [plus fmap list_fmap].
  rewrite bind_cons. change (@nil nat ≫= ?g) with (@nil (nat * nat)).
  rewrite app_nil_r, grid_row.
  unfold images_per_row.
  replace (Nat.min (S rows * 3) total_images)
    with (Nat.min (rows * 3) total_images +
          Nat.min 3 (total_images - rows * 3)) by lia.
  rewrite seq_app, fmap_app. f_equal. cbn [plus].
  destruct (Nat.le_gt_cases total_images (rows * 3)) as [Hle|Hgt].
  - by replace (Nat.min 3 (total_images - rows * 3)) with 0 by lia.
  - replace (Nat.min (rows * 3) total_images) with (rows * 3) by lia.
    replace (seq (rows * 3)) with (seq (rows * 3 + 0))
      by (by rewrite Nat.add_0_r).
    rewrite <- (fmap_add_seq (rows * 3)), <- list_fmap_compose.
    apply Forall_fmap_ext_1, Forall_forall.
    intros col_idx [_ Hcol]%elem_of_seq. unfold compose. f_equal.
    rewrite (Nat.add_comm (rows * 3)), Nat.Div0.mod_add.
    symmetry. apply Nat.mod_small. lia.
Qed.

(** The grid shows every image once, in the order of the list, three to
    a row: the image of index [i] in column [i mod 3]. *)
Theorem grid_cells_cover (total_images : nat) :
  grid_cells total_images =
  (fun img_idx => (img_idx mod images_per_row, img_idx))
    <$> seq 0 total_images.
Proof.
  unfold grid_cells, range_step. rewrite grid_rows. f_equal. f_equal.
  unfold images_per_row.
  pose proof (Nat.div_mod_eq (total_images + 3 - 1) 3).
  pose proof (Nat.mod_upper_bound (total_images + 3 - 1) 3). lia.
Qed.

(** ** The archive of categorized images *)







(** The archive is not built when an index of [image_categories] is not
    one of [all_images], whatever comes before it: the lookup raises. *)
Theorem categorized_zip_index_error (path_exists : string → bool)
    (all_images : list ImageData) (image_categories : list (nat * Category))
    (st : (Category → nat) * list zip_call) :
  categorized_zip path_exists all_images image_categories st = None ↔
  Exists (fun entry => length all_images ≤ entry.1) image_categories.
Proof.
  revert st. induction image_categories as [|[img_idx category] rest IH];
    intros st; cbn [categorized_zip].
  - split; [done|]. by intros ?%Exists_nil.
  - rewrite Exists_cons. cbn [fst].
    destruct (all_images !! img_idx) as [img_data|] eqn:Hlookup;
      cbn [mbind option_bind].
    + apply lookup_lt_Some in Hlookup.
      destruct (local_path img_data) as [path|];
        [destruct (path_exists path)|]; rewrite IH; split; try tauto;
        intros [?|?]; (lia || done).
    + apply lookup_ge_None in Hlookup. split; [by left|done].
Qed.

(** ** Navigation links, once more *)

Lemma set_add_nonempty (x : string) (links : list string) :
  set_add x links ≠ [].
Proof.
  unfold set_add. case_bool_decide as Hin.
  - intros ->. by apply elem_of_nil in Hin.
  - by destruct links.
Qed.

Lemma set_add_length (x : string) (links : list string) :
  length (set_add x links) ≤ S (length links).
Proof.
  unfold set_add. case_bool_decide; [lia|]. rewrite length_app. simpl. lia.
Qed.

(** While the links of a selector are read, [nav_links_found] is set only
    with a link in the set, and each [href] adds one link at most. *)
Lemma visit_hrefs_found (base_domain base_url : string) (hrefs : list string)
    (st : list string * bool) :
  let st' := state_of (visit_hrefs base_domain base_url st hrefs) in
  (st.2 = true → st.1 ≠ []) →
  (st'.2 = true → st'.1 ≠ []) ∧
  length st'.1 ≤ length st.1 + length hrefs.
Proof.
  revert st. induction hrefs as [|href rest IH]; intros st; simpl.
  - intros Hst. split; [done|lia].
  - intros Hst.
    assert (Hone :
      let st1 := state_of (visit_href base_domain base_url st href) in
      (st1.2 = true → st1.1 ≠ []) ∧ length st1.1 ≤ S (length st.1)).
    { unfold visit_href. destruct (skipped_href href); [simpl; split; [done|lia]|].
      destruct (absolute_href base_domain base_url href) as [absolute_url|];
        [|simpl; split; [done|lia]].
      destruct (Str.startswith absolute_url base_domain);
        [|simpl; split; [done|lia]].
      destruct (clean_url absolute_url) as [clean|];
        [|simpl; split; [done|lia]].
      simpl. split; [intros _; apply set_add_nonempty|apply set_add_length]. }
    destruct (visit_href base_domain base_url st href) as [st1|st1];
      simpl in Hone; destruct Hone as [Hone Hlen].
    + destruct (IH st1 Hone) as [Hfound Hlen']. split; [done|]. lia.
    + simpl. split; [done|]. lia.
Qed.


Lemma try_fallback_selectors_length (soup : node)
    (base_domain base_url : string) (sels : list selector)
    (links : list string) :
  length (try_fallback_selectors soup base_domain base_url sels links) ≤
    length links + 10 * length sels.
Proof.
  revert links. induction sels as [|sel rest IH]; intros links;
    cbn [try_fallback_selectors length]; [lia|].
  destruct (visit_hrefs_found base_domain base_url (fallback_hrefs soup sel)
              (links, false)) as [_ Hlen]; [done|].
  assert (Hten : length (fallback_hrefs soup sel) ≤ 10).
  { unfold fallback_hrefs. rewrite length_fmap, length_take. lia. }
  destruct (visit_hrefs _ _ _ _) as [[links' found]|[links' found]];
    cbn [state_of fst length] in Hlen.
  - destruct links' as [|link more].
    + pose proof (IH []) as Hrest. cbn [length] in Hrest, Hlen. lia.
    + cbn [length] in Hlen |- *. lia.
  - pose proof (IH links'). lia.
Qed.

(** When no navigation selector gives a link, the fallback selectors give
    thirty links at most: ten elements are looked at under each. *)
Theorem find_navigation_links_fallback_cap (self self' : WebScraper)
    (soup : node) (base_url : string) (links : list string) :
  find_navigation_links self soup base_url = Some (links, self') →
  (try_nav_selectors soup (default EmptyString (base_domain self')) base_url
     nav_selectors ([], false)).1 = [] →
  length links ≤ 30.
Proof.
  unfold find_navigation_links.
  intros (self1 & _ & Hrest)%bind_Some Hnone.
  set (domain := default EmptyString (base_domain self1)) in *.
  set (found := try_nav_selectors soup domain base_url nav_selectors
                  ([], false)) in *.
  assert (Hself : self' = self1) by (destruct found; by injection Hrest).
  subst self'. fold domain in Hnone. fold found in Hnone.
  destruct found as [links0 flag]. cbn [fst] in Hnone. subst links0.
  injection Hrest as <-.
  pose proof (try_fallback_selectors_length soup domain base_url
                fallback_selectors []) as Hlen.
  exact Hlen.
Qed.

(** What one call of [download_and_convert_image] does: nothing is
    written when it returns [None]; otherwise one file is written, under
    the path returned, which is [output_dir] joined with [filename] and
    [.jpg] or [.png]; a [.jpg] file is written as JPEG at quality 95 and
    holds an RGB image, a [.png] file is written as PNG and holds an image
    of mode RGBA, LA, P or RGB. *)
Theorem download_one_file_or_none (web : ImageWeb) (files : list SavedFile)
    (img_url output_dir filename : string) :
  let '(result, files') :=
    download_and_convert_image web files img_url output_dir filename in
  match result with
  | None => files' = files
  | Some output_path =>
      ∃ ext format quality img,
        output_path = os_path_join output_dir (filename +:+ ext) ∧
        files' = files ++ [mkSavedFile output_path format quality img] ∧
        ((ext = ".jpg" ∧ format = "JPEG" ∧ quality = Some 95 ∧
          PIL.mode img = "RGB") ∨
         (ext = ".png" ∧ format = "PNG" ∧ quality = None ∧
          PIL.mode img ∈ ["RGBA"; "LA"; "P"; "RGB"]))
  end.
Proof.
  destruct (download_and_convert_image web files img_url output_dir filename)
    as [result files'] eqn:Hload.
  by apply download_cases in Hload.
Qed.

(** ** The theorems at work *)

Lemma collect_images_per_page_witness :
  (0 ≤ 2)%Z ∧
  image <$> filter (fun d => source_page d = "https://example.com/")
              (collect_images pages_two 2 ([], 0)).1 =
    [image_rec 1 "https://example.com/photo.jpg";
     image_rec 2 "https://example.com/anim.gif"].
Proof.
  assert (Hmax : (0 ≤ 2)%Z) by lia.
  assert (Hnd : NoDup pages_two.*1).
  { apply NoDup_cons. split; [|apply NoDup_singleton].
    by intros [=]%list_elem_of_singleton. }
  assert (Hin : ("https://example.com/",
                 mkPageData "Home" "<html>"
                   [image_rec 1 "https://example.com/photo.jpg";
                    image_rec 2 "https://example.com/anim.gif";
                    image_rec 3 "https://example.com/logo.jpg"] 1 3)
                ∈ pages_two) by (by left).
  split; [exact Hmax|].
  exact (proj1 (collect_images_per_page pages_two 2 _ _ Hmax Hnd Hin)).
Defined.

Lemma crawl_seed_first_witness :
  ∃ pages self',
    crawl_website web_retry 20 __init__ "https://example.com/" 5 =
      Some (pages, self') ∧
    (pages = [] ∨ head pages.*1 = Some "https://example.com/").
Proof.
  destruct (crawl_website web_retry 20 __init__ "https://example.com/" 5)
    as [[pages self']|] eqn:Hrun; [|vm_compute in Hrun; discriminate].
  exists pages, self'. split; [reflexivity|].
  exact (crawl_seed_first web_retry 5 __init__ "https://example.com/" 20
           pages self' Hrun).
Defined.

Lemma crawl_base_domain_fixed_witness :
  base_domain (scraper retry_after_seed) = None ∨
  ∃ parsed_url,
    urllib.urlparse "https://example.com/" = Some parsed_url ∧
    base_domain (scraper retry_after_seed) =
      Some (urllib.scheme parsed_url +:+ "://" +:+ urllib.netloc parsed_url).
Proof.
  apply (crawl_base_domain_fixed web_retry 5).
  apply reach_step; [apply reach_start|]. vm_compute. reflexivity.
Defined.

Lemma crawl_requests_unvisited_witness :
  length (pages_data retry_after_seed) ≤
    length (session_log (scraper retry_after_seed)).
Proof.
  assert (Hreach : reachable web_retry 5 __init__ "https://example.com/"
                     retry_after_seed).
  { apply reach_step; [apply reach_start|]. vm_compute. reflexivity. }
  exact (proj2 (proj2 (crawl_requests_unvisited web_retry 5
                         "https://example.com/" retry_after_seed Hreach))).
Defined.

Lemma main_stored_pages_witness :
  ∃ data files,
    main web_gallery (fun _ => web_images) (Some "/tmp/x") 20 "example.com/"
      5 1 = Some (stored data files) ∧
    session_state.url data = "https://example.com/" ∧
    1 ≤ session_state.total_pages data.
Proof.
  destruct (main web_gallery (fun _ => web_images) (Some "/tmp/x") 20
              "example.com/" 5 1) as [[message|data files]|] eqn:Hmain;
    [vm_compute in Hmain; discriminate| |vm_compute in Hmain; discriminate].
  exists data, files. split; [reflexivity|].
  destruct (main_stored_pages web_gallery (fun _ => web_images)
              (Some "/tmp/x") 20 "example.com/" 5 1 data files Hmain)
    as (Hurl & _ & _ & _ & Hone & _).
  split; [exact Hurl|exact Hone].
Defined.

Lemma main_stored_images_witness :
  ∃ data files,
    main web_gallery (fun _ => web_images) (Some "/tmp/x") 20 "example.com/"
      5 1 = Some (stored data files) ∧
    NoDup (file_path <$> files).
Proof.
  destruct (main web_gallery (fun _ => web_images) (Some "/tmp/x") 20
              "example.com/" 5 1) as [[message|data files]|] eqn:Hmain;
    [vm_compute in Hmain; discriminate| |vm_compute in Hmain; discriminate].
  exists data, files. split; [reflexivity|].
  destruct (main_stored_images web_gallery (fun _ => web_images)
              (Some "/tmp/x") 20 "example.com/" 5 1 data files Hmain)
    as (_ & _ & Hnd & _).
  exact Hnd.
Defined.

Lemma create_download_zip_names_witness :
  NoDup (arcname_of <$>
           create_download_zip
             (Some [("/tmp/x/images",
                     ["image_001_from_page_1.jpg";
                      "image_002_from_page_2.png"])])
             "2024-01-02 03:04:05" pages_two "https://example.com/").
Proof.
  apply create_download_zip_names.
  - apply NoDup_cons. split; [|apply NoDup_singleton].
    by intros [=]%list_elem_of_singleton.
  - by repeat constructor.
Defined.



Lemma find_navigation_links_fallback_cap_witness :
  ∃ links self',
    find_navigation_links __init__ page_list "https://example.com/" =
      Some (links, self') ∧
    length links ≤ 30.
Proof.
  destruct (find_navigation_links __init__ page_list "https://example.com/")
    as [[links self']|] eqn:Hlinks; [|vm_compute in Hlinks; discriminate].
  exists links, self'. split; [reflexivity|].
  apply (find_navigation_links_fallback_cap __init__ self' page_list
           "https://example.com/" links Hlinks).
  assert (Hself : base_domain self' = Some "https://example.com").
  { apply (f_equal (fmap (base_domain ∘ snd))) in Hlinks.
    vm_compute in Hlinks. by injection Hlinks. }
  rewrite Hself. vm_compute. reflexivity.
Defined.
